(** * Hikari-OCR: the filename month detector and the upload/result lists

    A shallow embedding of [src/app/ui/scripts/main.js]:
    - [detectMonthFromFilename] with the two regular expressions it uses,
      the month-name table and the JavaScript built-ins it calls;
    - the global [uploadedFiles] list with [addFiles], [removeFile],
      [updateFileMonth] and [handleReset];
    - the result-rendering loop of [handleExecute] with [addResultRow]
      and [addErrorRow].

    JavaScript strings are sequences of UTF-16 code units, and a regular
    expression without the [u] flag works on code units, so a string is a
    [list Z] of code units here. *)

From Stdlib Require Import String Ascii ZArith QArith List Bool Lia.
From Stdlib Require Import Sorted Permutation.
Import ListNotations.
Open Scope Z_scope.

(* ------------------------------------------------------------------ *)
(** * JavaScript strings *)
(* ------------------------------------------------------------------ *)

Module JS.

Definition jsstring := list Z.

(** Reading a literal of this file (UTF-8 bytes) as UTF-16 code units. *)
Fixpoint decode_utf8 (bs : list Z) : jsstring :=
  match bs with
  | [] => []
  | b0 :: t0 =>
      if b0 <? 0x80 then b0 :: decode_utf8 t0
      else
        match t0 with
        | [] => []
        | b1 :: t1 =>
            if b0 <? 0xE0 then
              ((b0 - 0xC0) * 64 + (b1 - 0x80)) :: decode_utf8 t1
            else
              match t1 with
              | [] => []
              | b2 :: t2 =>
                  if b0 <? 0xF0 then
                    ((b0 - 0xE0) * 4096 + (b1 - 0x80) * 64 + (b2 - 0x80))
                      :: decode_utf8 t2
                  else
                    match t2 with
                    | [] => []
                    | b3 :: t3 =>
                        let cp := (b0 - 0xF0) * 262144 + (b1 - 0x80) * 4096
                                  + (b2 - 0x80) * 64 + (b3 - 0x80) - 0x10000 in
                        (0xD800 + cp / 1024) :: (0xDC00 + cp mod 1024)
                          :: decode_utf8 t3
                    end
              end
        end
  end.

Definition js (s : string) : jsstring :=
  decode_utf8 (map (fun a => Z.of_N (N_of_ascii a)) (list_ascii_of_string s)).

(** ** Character classes of the regular expressions *)

(** [[0-9]] *)
Definition is_ascii_digit (c : Z) : bool := (48 <=? c) && (c <=? 57).

(** [[０-９]], U+FF10 .. U+FF19 *)
Definition is_fullwidth_digit (c : Z) : bool := (0xFF10 <=? c) && (c <=? 0xFF19).

(** [[0-9０-９]] *)
Definition is_digit_any (c : Z) : bool := is_ascii_digit c || is_fullwidth_digit c.

(** [\s]: WhiteSpace and LineTerminator code points. *)
Definition is_space (c : Z) : bool :=
  (c =? 9) || (c =? 10) || (c =? 11) || (c =? 12) || (c =? 13) || (c =? 32)
  || (c =? 0xA0) || (c =? 0x1680) || ((0x2000 <=? c) && (c <=? 0x200A))
  || (c =? 0x2028) || (c =? 0x2029) || (c =? 0x202F) || (c =? 0x205F)
  || (c =? 0x3000) || (c =? 0xFEFF).

(** The character 月, U+6708. *)
Definition tsuki : Z := 0x6708.
Definition is_tsuki (c : Z) : bool := c =? tsuki.

(** [[_\-]] *)
Definition is_open_delim (c : Z) : bool := (c =? 95) || (c =? 45).

(** [[_\-\.]] *)
Definition is_close_delim (c : Z) : bool := (c =? 95) || (c =? 45) || (c =? 46).

(** ** A backtracking matcher for sequences of quantified classes

    Both expressions of the source are a sequence of character classes,
    each with a greedy quantifier, one of them inside the capture group. *)

Record piece := Piece {
  cls : Z -> bool;          (* the character class *)
  rmin : nat;               (* least number of repetitions *)
  rmax : option nat;        (* greatest number, [None] for unbounded *)
  captured : bool           (* inside the parentheses of group 1 *)
}.

Definition regex := list piece.

(** The longest run a greedy quantifier can take at the head of [s]. *)
Fixpoint run_length (c : Z -> bool) (limit : option nat) (s : jsstring) : nat :=
  match limit with
  | Some O => O
  | _ =>
      match s with
      | x :: s' =>
          if c x then S (run_length c (option_map Nat.pred limit) s') else O
      | [] => O
      end
  end.

(** Greedy choice with backtracking: try [k], then [k-1], ... down to [lo]. *)
Fixpoint backtrack {A : Type} (lo k : nat) (f : nat -> option A) : option A :=
  if (k <? lo)%nat then None
  else
    match f k with
    | Some a => Some a
    | None =>
        match k with
        | O => None
        | S k' => backtrack lo k' f
        end
    end.

(** Match [r] at the head of [s]: the text of group 1 (when a piece is
    captured) and the rest of the string after the match. *)
Fixpoint match_here (r : regex) (s : jsstring) : option (option jsstring * jsstring) :=
  match r with
  | [] => Some (None, s)
  | p :: r' =>
      backtrack (rmin p) (run_length (cls p) (rmax p) s)
        (fun k =>
           match match_here r' (skipn k s) with
           | Some (g, rest) =>
               Some (if captured p then Some (firstn k s) else g, rest)
           | None => None
           end)
  end.

(** [String.prototype.match] with a non-global expression: the first start
    position, from the left, at which the expression matches. The result
    is the start index and group 1. *)
Fixpoint search_from (r : regex) (i : nat) (s : jsstring) : option (nat * option jsstring) :=
  match match_here r s with
  | Some (g, _) => Some (i, g)
  | None =>
      match s with
      | [] => None
      | _ :: s' => search_from r (S i) s'
      end
  end.

Definition String_match (r : regex) (s : jsstring) : option (nat * option jsstring) :=
  search_from r 0 s.

(** ** Other built-ins *)

(** A JavaScript number as used here: an integer or NaN. *)
Inductive jsnum := Num (z : Z) | NaN.

Fixpoint drop_while (c : Z -> bool) (s : jsstring) : jsstring :=
  match s with
  | x :: s' => if c x then drop_while c s' else s
  | [] => []
  end.

Fixpoint take_while (c : Z -> bool) (s : jsstring) : jsstring :=
  match s with
  | x :: s' => if c x then x :: take_while c s' else []
  | [] => []
  end.

Definition is_hex_digit (c : Z) : bool :=
  is_ascii_digit c || ((97 <=? c) && (c <=? 102)) || ((65 <=? c) && (c <=? 70)).

Definition digit_value (c : Z) : Z :=
  if is_ascii_digit c then c - 48
  else if (97 <=? c) && (c <=? 102) then c - 87
  else c - 55.

Definition digits_value (radix : Z) (ds : jsstring) : Z :=
  fold_left (fun acc c => radix * acc + digit_value c) ds 0.

(** [parseInt(string)] with no radix argument: leading white space is
    skipped, a sign is read, a [0x] prefix selects radix 16, and the
    longest prefix of digits gives the value; NaN when there is none.
    (The value is exact; the built-in rounds above 2^53.) *)
Definition parseInt (s : jsstring) : jsnum :=
  let s := drop_while is_space s in
  let '(sign, s) :=
    match s with
    | c :: s' => if c =? 45 then (-1, s') else if c =? 43 then (1, s') else (1, s)
    | [] => (1, s)
    end in
  let '(radix, isdig, s) :=
    match s with
    | c0 :: c1 :: s' =>
        if (c0 =? 48) && ((c1 =? 120) || (c1 =? 88)) then (16, is_hex_digit, s')
        else (10, is_ascii_digit, s)
    | _ => (10, is_ascii_digit, s)
    end in
  match take_while isdig s with
  | [] => NaN
  | ds => Num (sign * digits_value radix ds)
  end.

(** [s.replace(/[０-９]/g, c => String.fromCharCode(c.charCodeAt(0) - 0xFEE0))] *)
Definition fullwidth_to_halfwidth (s : jsstring) : jsstring :=
  map (fun c => if is_fullwidth_digit c then c - 0xFEE0 else c) s.

(** [toLowerCase], one code unit at a time. Besides A-Z, the only
    characters whose lower case contains a letter of a-z are U+0130
    (to [i] and U+0307) and U+212A (to [k]); every other character is
    left as it is, since its lower case stays outside a-z and cannot take
    part in a match of a month name. *)
Definition lower_unit (c : Z) : jsstring :=
  if (65 <=? c) && (c <=? 90) then [c + 32]
  else if c =? 0x130 then [105; 0x307]
  else if c =? 0x212A then [107]
  else [c].

Definition toLowerCase (s : jsstring) : jsstring := flat_map lower_unit s.

Fixpoint starts_with (p s : jsstring) : bool :=
  match p, s with
  | [], _ => true
  | x :: p', y :: s' => (x =? y) && starts_with p' s'
  | _ :: _, [] => false
  end.

(** [s.includes(p)] *)
Fixpoint includes (s p : jsstring) : bool :=
  starts_with p s ||
  match s with
  | [] => false
  | _ :: s' => includes s' p
  end.

End JS.

Import JS.

(* ------------------------------------------------------------------ *)
(** * The month detector *)
(* ------------------------------------------------------------------ *)

(** [/([0-9０-９]{1,2})\s*月/] *)
Definition pattern1 : regex :=
  [ Piece is_digit_any 1 (Some 2%nat) true;
    Piece is_space 0 None false;
    Piece is_tsuki 1 (Some 1%nat) false ].

(** [/[_\-]([0-9]{2})[_\-\.]/] *)
Definition pattern2 : regex :=
  [ Piece is_open_delim 1 (Some 1%nat) false;
    Piece is_ascii_digit 2 (Some 2%nat) true;
    Piece is_close_delim 1 (Some 1%nat) false ].

(** The table [monthNames]; [Object.entries] lists string keys in the
    order in which the literal declares them. *)
Definition monthNames : list (jsstring * Z) :=
  [ (js "jan", 1); (js "january", 1);
    (js "feb", 2); (js "february", 2);
    (js "mar", 3); (js "march", 3);
    (js "apr", 4); (js "april", 4);
    (js "may", 5);
    (js "jun", 6); (js "june", 6);
    (js "jul", 7); (js "july", 7);
    (js "aug", 8); (js "august", 8);
    (js "sep", 9); (js "september", 9);
    (js "oct", 10); (js "october", 10);
    (js "nov", 11); (js "november", 11);
    (js "dec", 12); (js "december", 12) ].

(** [a - b], [a === b], [a >= b], [a <= b] on a number and an integer
    literal; every comparison with NaN is false. *)
Definition js_sub (a : jsnum) (b : Z) : jsnum :=
  match a with Num x => Num (x - b) | NaN => NaN end.

Definition js_strict_eq (a : jsnum) (b : Z) : bool :=
  match a with Num x => x =? b | NaN => false end.

Definition js_ge (a : jsnum) (b : Z) : bool :=
  match a with Num x => b <=? x | NaN => false end.

Definition js_le (a : jsnum) (b : Z) : bool :=
  match a with Num x => x <=? b | NaN => false end.

(** [for (const [name, month] of Object.entries(monthNames))
       if (lowerFilename.includes(name)) return month;] *)
Fixpoint for_entries (entries : list (jsstring * Z)) (lowerFilename : jsstring) : option jsnum :=
  match entries with
  | [] => None
  | (name, month) :: rest =>
      if includes lowerFilename name then Some (Num month)
      else for_entries rest lowerFilename
  end.

(** [detectMonthFromFilename]; the result [None] is [null]. Each
    [if (match) { ... }] block either returns or falls through to the
    next statement. *)
Definition detectMonthFromFilename (filename : jsstring) : option jsnum :=
  (* pattern 1 *)
  let block1 :=
    match String_match pattern1 filename with
    | Some (_, Some monthStr) =>
        let monthStr := fullwidth_to_halfwidth monthStr in
        let month := parseInt monthStr in
        let month := js_sub month 1 in
        let month := if js_strict_eq month 0 then Num 12 else month in
        if js_ge month 1 && js_le month 12 then Some month else None
    | _ => None
    end in
  match block1 with
  | Some month => Some month
  | None =>
      (* pattern 2 *)
      let block2 :=
        match String_match pattern2 filename with
        | Some (_, Some m1) =>
            let month := parseInt m1 in
            let month := js_sub month 1 in
            let month := if js_strict_eq month 0 then Num 12 else month in
            if js_ge month 1 && js_le month 12 then Some month else None
        | _ => None
        end in
      match block2 with
      | Some month => Some month
      | None =>
          (* pattern 3 *)
          let lowerFilename := toLowerCase filename in
          for_entries monthNames lowerFilename
      end
  end.

(** ** The three blocks on their own *)

(** [month = month - 1; if (month === 0) month = 12;
     if (month >= 1 && month <= 12) return month;] *)
Definition offset_and_check (month : jsnum) : option jsnum :=
  let month := js_sub month 1 in
  let month := if js_strict_eq month 0 then Num 12 else month in
  if js_ge month 1 && js_le month 12 then Some month else None.

Definition heuristic1 (filename : jsstring) : option jsnum :=
  match String_match pattern1 filename with
  | Some (_, Some monthStr) =>
      offset_and_check (parseInt (fullwidth_to_halfwidth monthStr))
  | _ => None
  end.

Definition heuristic2 (filename : jsstring) : option jsnum :=
  match String_match pattern2 filename with
  | Some (_, Some m1) => offset_and_check (parseInt m1)
  | _ => None
  end.

Definition heuristic3 (filename : jsstring) : option jsnum :=
  for_entries monthNames (toLowerCase filename).

(* ------------------------------------------------------------------ *)
(** * The list of uploaded files *)
(* ------------------------------------------------------------------ *)

Module Upload.

(** A [File] of the browser; the list and the detector read its [name]
    only. *)
Record File := { name : jsstring }.

(** An entry of the global [uploadedFiles]. *)
Record UploadedFile := {
  file : File;
  detectedMonth : option jsnum;      (* [null] or a number *)
  selectedMonth : jsnum
}.

(** [a || b] for a number-or-null [a]: [null], NaN and 0 are falsy. *)
Definition js_or (a : option jsnum) (b : jsnum) : jsnum :=
  match a with
  | Some (Num z) => if z =? 0 then b else Num z
  | Some NaN => b
  | None => b
  end.

(** [addFiles(files)]: one [push] per file. *)
Definition addFiles (uploadedFiles : list UploadedFile) (files : list File) : list UploadedFile :=
  fold_left
    (fun uploaded f =>
       let detectedMonth := detectMonthFromFilename (name f) in
       uploaded ++ [ {| file := f;
                        detectedMonth := detectedMonth;
                        selectedMonth := js_or detectedMonth (Num 1) |} ])
    files uploadedFiles.

(** [uploadedFiles.splice(index, 1)] for an index the list view printed
    (a natural number); nothing is removed past the end. *)
Fixpoint removeFile (uploadedFiles : list UploadedFile) (index : nat) : list UploadedFile :=
  match uploadedFiles, index with
  | [], _ => []
  | _ :: rest, O => rest
  | x :: rest, S i => x :: removeFile rest i
  end.

(** [uploadedFiles[index].selectedMonth = parseInt(month)]; [None] is the
    TypeError raised when [uploadedFiles[index]] is undefined, in which
    case nothing has been written. *)
Fixpoint updateFileMonth (uploadedFiles : list UploadedFile) (index : nat) (month : jsstring)
  : option (list UploadedFile) :=
  match uploadedFiles, index with
  | [], _ => None
  | x :: rest, O =>
      Some ({| file := file x;
               detectedMonth := detectedMonth x;
               selectedMonth := parseInt month |} :: rest)
  | x :: rest, S i =>
      match updateFileMonth rest i month with
      | Some rest' => Some (x :: rest')
      | None => None
      end
  end.

(** [handleReset]: [uploadedFiles = []]. *)
Definition handleReset (uploadedFiles : list UploadedFile) : list UploadedFile := [].

(** The text of [${m}] for the numbers below 100. *)
Definition template_number (m : Z) : jsstring :=
  if m <? 10 then [48 + m] else [48 + m / 10; 48 + m mod 10].

(** The [value] attributes of the options [renderFileList] prints:
    [Array.from({length: 12}, (_, i) => i + 1)]. *)
Definition dropdown_values : list jsstring :=
  map (fun i => template_number (Z.of_nat i + 1)) (seq 0 12).

(** The operations that touch the list. *)
Inductive operation :=
| AddFiles (files : list File)
| RemoveFile (index : nat)
| UpdateFileMonth (index : nat) (month : jsstring)
| Reset.

Definition step (uploadedFiles : list UploadedFile) (o : operation) : list UploadedFile :=
  match o with
  | AddFiles files => addFiles uploadedFiles files
  | RemoveFile index => removeFile uploadedFiles index
  | UpdateFileMonth index month =>
      match updateFileMonth uploadedFiles index month with
      | Some uploaded' => uploaded'
      | None => uploadedFiles
      end
  | Reset => handleReset uploadedFiles
  end.

Definition run (ops : list operation) : list UploadedFile := fold_left step ops [].

(** The month a dropdown change passes is one of the printed values. *)
Definition from_dropdown (o : operation) : Prop :=
  match o with
  | UpdateFileMonth _ month => In month dropdown_values
  | _ => True
  end.

Definition month_in_range (x : jsnum) : Prop :=
  exists m, x = Num m /\ 1 <= m <= 12.

Definition selected_in_range (uploadedFiles : list UploadedFile) : Prop :=
  Forall (fun e => month_in_range (selectedMonth e)) uploadedFiles.

(** The entry [addFiles] is meant to create for a file. *)
Definition entry_of (f : File) : UploadedFile :=
  {| file := f;
     detectedMonth := detectMonthFromFilename (name f);
     selectedMonth := match detectMonthFromFilename (name f) with
                      | Some month => month
                      | None => Num 1
                      end |}.

End Upload.

(* ------------------------------------------------------------------ *)
(** * Rendering the results *)
(* ------------------------------------------------------------------ *)

Module Render.

Import Upload.

(** One element of [result.results]. [fields] lists the own keys of the
    object in [Object.keys] order, each with its value as string
    concatenation renders it; [None] is a missing or [null] property. *)
Record ResultItem := {
  filename : jsstring;
  status : jsstring;
  fields : option (list (jsstring * jsstring));
  ocr_text : option jsstring;
  ocr_confidence : option Q
}.

Inductive badge := BadgeSuccess | BadgeError.

(** A [<tr>] appended to the table body. *)
Inductive row :=
| Row (month kwh : jsstring) (b : badge) (title : option jsstring)
| OcrDetails (confidence : Q) (escapedText : jsstring)
| OcrUnavailable.

Fixpoint str_eqb (a b : jsstring) : bool :=
  match a, b with
  | [], [] => true
  | x :: a', y :: b' => (x =? y) && str_eqb a' b'
  | _, _ => false
  end.

(** [[぀-ゟ゠-ヿ一-鿿]] *)
Definition is_japanese (c : Z) : bool :=
  ((0x3040 <=? c) && (c <=? 0x309F)) || ((0x30A0 <=? c) && (c <=? 0x30FF))
  || ((0x4E00 <=? c) && (c <=? 0x9FFF)).

(** [s.replace(/c/g, rep)] for a single character [c]. *)
Definition replace_char (c : Z) (rep : jsstring) (s : jsstring) : jsstring :=
  flat_map (fun x => if x =? c then rep else [x]) s.

(** [s.replace(p, '')]: the first occurrence of [p] is removed. *)
Fixpoint remove_first (p s : jsstring) : jsstring :=
  if starts_with p s then skipn (length p) s
  else
    match s with
    | [] => []
    | x :: s' => x :: remove_first p s'
    end.

(** The OCR row built at the top of [addResultRow]; [None] is the empty
    string. The ratio of two lengths is compared with 0.2 as a rational,
    which agrees with the comparison of the doubles. *)
Definition ocrDetailsHtml (result : ResultItem) : option row :=
  let confidence := match ocr_confidence result with Some q => q | None => 0%Q end in
  let text := match ocr_text result with Some t => t | None => [] end in
  let has_text := (0 <? length text)%nat in
  let shouldShowOcr :=
    if Qle_bool (8 # 10) confidence && has_text then
      let japaneseChars := filter is_japanese text in
      let totalChars := length (filter (fun c => negb (is_space c)) text) in
      let japaneseRatio :=
        if (0 <? totalChars)%nat
        then (Z.of_nat (length japaneseChars) # Pos.of_nat totalChars)%Q
        else 0%Q in
      Qle_bool (2 # 10) japaneseRatio
    else false in
  if shouldShowOcr then
    let escapedText :=
      replace_char 62 (js "&gt;")
        (replace_char 60 (js "&lt;") (replace_char 38 (js "&amp;") text)) in
    Some (OcrDetails confidence escapedText)
  else if has_text then Some OcrUnavailable
  else None.

(** The comparator of the sort is positive: [a] goes after [b]. *)
Definition sorts_after (a b : jsstring) : bool :=
  match parseInt (remove_first (js "月値") a), parseInt (remove_first (js "月値") b) with
  | Num monthA, Num monthB => 0 <? monthA - monthB
  | _, _ => false
  end.

Fixpoint insert_key (k : jsstring) (sorted : list jsstring) : list jsstring :=
  match sorted with
  | [] => [k]
  | e :: rest => if sorts_after e k then k :: sorted else e :: insert_key k rest
  end.

(** [keys.sort(comparator)], as a stable insertion sort. (With keys whose
    number is NaN the comparator is not an order and the engine's result
    may differ in order, not in content.) *)
Definition sort_keys (keys : list jsstring) : list jsstring :=
  fold_left (fun sorted k => insert_key k sorted) keys [].

(** [result.fields[key]] *)
Fixpoint field_value (fs : list (jsstring * jsstring)) (key : jsstring) : jsstring :=
  match fs with
  | [] => js "undefined"
  | (k, v) :: rest => if str_eqb k key then v else field_value rest key
  end.

(** A number in an [if]: 0 and NaN are falsy, as is [null]. *)
Definition truthy (x : option jsnum) : bool :=
  match x with
  | Some (Num z) => negb (z =? 0)
  | _ => false
  end.

(** [`${selectedMonth}月`] *)
Definition month_label (x : option jsnum) : jsstring :=
  match x with
  | Some (Num z) => template_number z ++ [tsuki]
  | Some NaN => js "NaN月"
  | None => js "null月"
  end.

Definition opt_row (r : option row) : list row :=
  match r with Some x => [x] | None => [] end.

(** [addResultRow(tbody, result, selectedMonth)]: the table body after
    the call. *)
Definition addResultRow (tbody : list row) (result : ResultItem) (selectedMonth : option jsnum)
  : list row :=
  let ocr := ocrDetailsHtml result in
  match fields result with
  | Some ((_ :: _) as fs) =>
      let monthKeys :=
        sort_keys (filter (fun key => negb (str_eqb key (js "ocr_confidence")))
                          (map fst fs)) in
      match monthKeys with
      | _ :: _ =>
          (* one row per key, the OCR row after the last one *)
          tbody
            ++ map (fun key =>
                      Row (remove_first (js "値") key)
                          (field_value fs key ++ js " kWh")
                          BadgeSuccess None) monthKeys
            ++ opt_row ocr
      | [] =>
          if truthy selectedMonth then
            tbody ++ [Row (month_label selectedMonth) (js "未検出") BadgeSuccess None]
                  ++ opt_row ocr
          else tbody
      end
  | _ =>
      if truthy selectedMonth then
        tbody ++ [Row (month_label selectedMonth) (js "エラー") BadgeError None]
      else tbody
  end.

(** [addErrorRow(tbody, filename)] *)
Definition addErrorRow (tbody : list row) (filename : jsstring) : list row :=
  tbody ++ [Row (js "-") (js "エラー") BadgeError (Some filename)].

(** The status values that [handleExecute] does not treat as failures. *)
Definition status_ok (item : ResultItem) : bool :=
  str_eqb (status item) (js "完了") || str_eqb (status item) (js "kWh未検出").

(** The body of the [forEach] over [result.results]. *)
Definition render_item (uploadedFiles : list UploadedFile) (tbody : list row) (item : ResultItem)
  : list row :=
  let uploadedFile :=
    find (fun f => str_eqb (name (file f)) (filename item)) uploadedFiles in
  let selectedMonth :=
    match uploadedFile with
    | Some u => Some (selectedMonth u)
    | None => None
    end in
  if status_ok item then addResultRow tbody item selectedMonth
  else addErrorRow tbody (filename item).

(** [if (result.results) { result.results.forEach(...) }] *)
Definition render_results (uploadedFiles : list UploadedFile)
  (results : option (list ResultItem)) (resultTableBody : list row) : list row :=
  match results with
  | Some items => fold_left (render_item uploadedFiles) items resultTableBody
  | None => resultTableBody
  end.

(** The rows one item adds. *)
Definition rows_of (uploadedFiles : list UploadedFile) (item : ResultItem) : list row :=
  render_item uploadedFiles [] item.

Definition is_failed_row (r : row) : Prop :=
  exists month kwh title, r = Row month kwh BadgeError title.

(** The item carries a month field: a key other than [ocr_confidence]. *)
Definition has_month_field (item : ResultItem) : Prop :=
  exists fs key v, fields item = Some fs /\ In (key, v) fs /\
                   str_eqb key (js "ocr_confidence") = false.

(** The item names one of the uploaded files. *)
Definition names_uploaded (uploadedFiles : list UploadedFile) (item : ResultItem) : Prop :=
  exists u, In u uploadedFiles /\ name (file u) = filename item.

End Render.

(* ------------------------------------------------------------------ *)
(** * The list view, the form and the download *)
(* ------------------------------------------------------------------ *)

Module UI.

Import Upload.
Import Render.

(** [s.trim()]: the white space of [\s] is removed at both ends. *)
Definition trim (s : jsstring) : jsstring :=
  rev (drop_while is_space (rev (drop_while is_space s))).

(** ** [renderFileList]

    The markup written to [fileList.innerHTML], as the elements it
    denotes; the file name is interpolated as it is. *)

(** [<option value="${m}" selected>${m}月</option>] *)
Record OptionEl := {
  opt_value : jsstring;
  opt_selected : bool;
  opt_label : jsstring
}.

(** [<select onchange="updateFileMonth(${index}, this.value)">] *)
Record SelectEl := {
  onchange_index : nat;
  select_options : list OptionEl
}.

(** [<div class="file-item">]: the clickable name with its [title] and
    [data-index], the month selector if any, and the remove button with
    [onclick="removeFile(${index})"]. *)
Record FileItemEl := {
  name_title : jsstring;
  data_index : nat;
  name_text : jsstring;
  monthSelector : option SelectEl;
  remove_index : nat
}.

(** [array.map((item, index) => ...)] *)
Fixpoint map_index {A B : Type} (f : A -> nat -> B) (index : nat) (l : list A) : list B :=
  match l with
  | [] => []
  | x :: l' => f x index :: map_index f (S index) l'
  end.

(** [Array.from({length: 12}, (_, i) => i + 1)] *)
Definition month_numbers : list Z :=
  map (fun i => Z.of_nat i + 1) (seq 0 12).

Definition renderFileList (currentMode : jsstring) (uploadedFiles : list UploadedFile)
  : list FileItemEl :=
  match uploadedFiles with
  | [] => []
  | _ :: _ =>
      map_index
        (fun item index =>
           let monthSelector :=
             if str_eqb currentMode (js "single") then
               let options :=
                 map (fun m =>
                        {| opt_value := template_number m;
                           opt_selected := js_strict_eq (selectedMonth item) m;
                           opt_label := template_number m ++ [tsuki] |})
                     month_numbers in
               Some {| onchange_index := index; select_options := options |}
             else None in
           {| name_title := name (file item);
              data_index := index;
              name_text := name (file item);
              monthSelector := monthSelector;
              remove_index := index |})
        0 uploadedFiles
  end.

(** ** The handlers that touch the list or its view

    The state they share: the two globals and the content of the
    [fileList] element. *)
Record State := {
  uploadedFiles : list UploadedFile;
  currentMode : jsstring;
  fileList : list FileItemEl
}.

Inductive event :=
| FileSelect (files : list File)               (* change of the file input *)
| Drop (files : list (jsstring * File))        (* dropped files, each with its [type] *)
| ClickRemove (index : nat)                    (* [removeFile(index)] *)
| ChangeMonth (index : nat) (value : jsstring) (* [updateFileMonth(index, value)] *)
| ModeChange (value : jsstring)                (* change of a mode radio *)
| ClickReset.                                  (* [handleReset] *)

(** [addFiles(files)] with its [renderFileList()] *)
Definition ui_addFiles (st : State) (files : list File) : State :=
  let uploaded := addFiles (uploadedFiles st) files in
  {| uploadedFiles := uploaded;
     currentMode := currentMode st;
     fileList := renderFileList (currentMode st) uploaded |}.

(** [handleDrop]: only the files of type [application/pdf] are added. *)
Definition handleDrop (st : State) (dropped : list (jsstring * File)) : State :=
  let files :=
    map snd (filter (fun f => str_eqb (fst f) (js "application/pdf")) dropped) in
  ui_addFiles st files.

(** [handleFileSelect]: every chosen file is added. *)
Definition handleFileSelect (st : State) (files : list File) : State :=
  ui_addFiles st files.

Definition handle (st : State) (ev : event) : State :=
  match ev with
  | FileSelect files => handleFileSelect st files
  | Drop dropped => handleDrop st dropped
  | ClickRemove index =>
      let uploaded := removeFile (uploadedFiles st) index in
      {| uploadedFiles := uploaded;
         currentMode := currentMode st;
         fileList := renderFileList (currentMode st) uploaded |}
  | ChangeMonth index value =>
      (* no rendering; on the TypeError nothing has changed *)
      match updateFileMonth (uploadedFiles st) index value with
      | Some uploaded =>
          {| uploadedFiles := uploaded;
             currentMode := currentMode st;
             fileList := fileList st |}
      | None => st
      end
  | ModeChange value =>
      {| uploadedFiles := uploadedFiles st;
         currentMode := value;
         fileList := renderFileList value (uploadedFiles st) |}
  | ClickReset =>
      {| uploadedFiles := handleReset (uploadedFiles st);
         currentMode := currentMode st;
         fileList := renderFileList (currentMode st) (handleReset (uploadedFiles st)) |}
  end.

(** ** The start of [handleExecute] *)

(** The values of the input elements the handlers read. *)
Record Inputs := {
  corpName_value : jsstring;
  address_value : jsstring;
  corpNumber_value : jsstring;
  startMonth_value : jsstring;
  monthOrderRadios : list (bool * jsstring)     (* [checked] and [value] *)
}.

(** A value appended to the [FormData]; the mappings are kept as the
    array that [JSON.stringify] serialises. *)
Inductive FormValue :=
| Text (s : jsstring)
| FilePart (f : File)
| Json (monthMappings : list (jsstring * jsnum)).

(** What [handleExecute] does before it waits for the server: one of the
    two alerts, or the request to [/api/process]. *)
Inductive Started :=
| AlertClientName
| AlertNoFiles
| Post (formData : list (jsstring * FormValue)).

(** [Array.from(radios).find(r => r.checked)?.value || 'ascending'] *)
Definition selectedOrder (radios : list (bool * jsstring)) : jsstring :=
  match find (fun r => fst r) radios with
  | Some (_, (_ :: _) as value) => value
  | _ => js "ascending"
  end.

Definition handleExecute_start (inputs : Inputs) (currentMode : jsstring)
  (uploadedFiles : list UploadedFile) : Started :=
  let corpName := trim (corpName_value inputs) in
  let address := trim (address_value inputs) in
  let corpNumber := trim (corpNumber_value inputs) in
  match corpName with
  | [] => AlertClientName
  | _ :: _ =>
      match uploadedFiles with
      | [] => AlertNoFiles
      | _ :: _ =>
          let formData :=
            [ (js "corp_name", Text corpName);
              (js "address", Text address);
              (js "corp_number", Text corpNumber);
              (js "mode", Text currentMode) ] in
          let formData :=
            if str_eqb currentMode (js "multi") then
              formData ++
              [ (js "start_month", Text (startMonth_value inputs));
                (js "month_order", Text (selectedOrder (monthOrderRadios inputs))) ]
            else formData in
          let monthMappings :=
            map (fun item => (name (file item), selectedMonth item)) uploadedFiles in
          let formData := formData ++ [ (js "month_mappings", Json monthMappings) ] in
          let formData :=
            fold_left (fun fd item => fd ++ [ (js "files", FilePart (file item)) ])
                      uploadedFiles formData in
          Post formData
      end
  end.

(** ** [handleDownload]: the name given to the download and the query
    parameters of the request. *)
Definition handleDownload_request (inputs : Inputs)
  : jsstring * list (jsstring * jsstring) :=
  let corpName :=
    match trim (corpName_value inputs) with
    | [] => js "output"
    | (_ :: _) as s => s
    end in
  let address := trim (address_value inputs) in
  let corpNumber := trim (corpNumber_value inputs) in
  let filename := corpName ++ js ".xlsx" in
  (filename,
   [ (js "corp_name", corpName); (js "address", address);
     (js "corp_number", corpNumber) ]).

(** ** [formatFileSize]

    [bytes] is the size of a file, a natural number below 2^53. The
    quotients by 1024 and 1024 * 1024 are then exact as doubles, and
    [toFixed(1)] gives the nearest tenth, a half going up. *)

(** The decimal digits of a natural number. *)
Fixpoint decimal_digits (fuel : nat) (n : Z) : jsstring :=
  match fuel with
  | O => []
  | S fuel' =>
      if n <? 10 then [48 + n]
      else decimal_digits fuel' (n / 10) ++ [48 + n mod 10]
  end.

(** [String(n)] for a natural number n below 10^21; the fuel covers the
    digits of n. *)
Definition number_text (n : Z) : jsstring :=
  decimal_digits (S (Z.to_nat (Z.log2 n))) n.

(** The number of tenths [(bytes / unit).toFixed(1)] shows. *)
Definition tenths (bytes unit : Z) : Z := (10 * bytes + unit / 2) / unit.

(** [(bytes / unit).toFixed(1)] *)
Definition toFixed1 (bytes unit : Z) : jsstring :=
  let n := tenths bytes unit in
  number_text (n / 10) ++ [46] ++ [48 + n mod 10].

Definition formatFileSize (bytes : Z) : jsstring :=
  if bytes <? 1024 then number_text bytes ++ js " B"
  else if bytes <? 1024 * 1024 then toFixed1 bytes 1024 ++ js " KB"
  else toFixed1 bytes (1024 * 1024) ++ js " MB".

(** ** The click on a file name

    [previewPdf(index)]: the file whose URL is opened; [None] is the
    TypeError raised when [uploadedFiles[index]] is undefined. *)
Definition previewPdf (uploadedFiles : list UploadedFile) (index : jsnum) : option File :=
  match index with
  | Num z =>
      if 0 <=? z then option_map file (nth_error uploadedFiles (Z.to_nat z))
      else None
  | NaN => None
  end.

(** The listener on [fileList]: a click on the name of an element reads
    the [data-index] attribute, whose text is [${index}], and calls
    [previewPdf(parseInt(...))]. *)
Definition click_name (uploadedFiles : list UploadedFile) (item : FileItemEl) : option File :=
  let index := parseInt (number_text (Z.of_nat (data_index item))) in
  previewPdf uploadedFiles index.

End UI.

(* ------------------------------------------------------------------ *)
(** * Vocabulary of the statements *)
(* ------------------------------------------------------------------ *)


(** A declarative reading of an expression: the string splits into one
    block per piece, each block within the piece's class and bounds. *)
Definition within (limit : option nat) (n : nat) : Prop :=
  match limit with
  | Some m => (n <= m)%nat
  | None => True
  end.

Inductive Matches : regex -> jsstring -> option jsstring -> jsstring -> Prop :=
| Matches_nil : forall s, Matches [] s None s
| Matches_cons : forall p r u s g rest,
    forallb (cls p) u = true ->
    (rmin p <= length u)%nat ->
    within (rmax p) (length u) ->
    Matches r s g rest ->
    Matches (p :: r) (u ++ s) (if captured p then Some u else g) rest.

(** The expression matches at index [i] of [s]. *)
Definition occurs_at (r : regex) (s : jsstring) (i : nat) : Prop :=
  exists g rest, Matches r (skipn i s) g rest.

(** [\s*月] at the head of a string: skip the white space, then 月. *)
Definition after_digits (g : jsstring) (t : jsstring) : option (option jsstring * jsstring) :=
  match drop_while is_space t with
  | c :: rest => if is_tsuki c then Some (Some g, rest) else None
  | [] => None
  end.

(** Pattern 1 at the head of a string: two digits when there are two,
    else one, then [\s*月]. *)
Definition pattern1_here (s : jsstring) : option (option jsstring * jsstring) :=
  match s with
  | a :: t =>
      if is_digit_any a then
        match t with
        | b :: t' =>
            if is_digit_any b then after_digits [a; b] t'
            else after_digits [a] t
        | [] => None
        end
      else None
  | [] => None
  end.

(** Pattern 2 at the head of a string. *)
Definition pattern2_here (s : jsstring) : option (option jsstring * jsstring) :=
  match s with
  | o :: d1 :: d2 :: cl :: rest =>
      if is_open_delim o && is_ascii_digit d1 && is_ascii_digit d2
         && is_close_delim cl
      then Some (Some [d1; d2], rest) else None
  | _ => None
  end.


(** The number a run of digits (of either width) denotes. *)
Definition digit_of (c : Z) : Z :=
  if is_fullwidth_digit c then c - 0xFF10 else c - 48.

Definition numeral (ds : jsstring) : Z :=
  fold_left (fun acc c => 10 * acc + digit_of c) ds 0.

(** The invoice offset: the month before [n], January wrapping to December. *)
Definition offset_month (n : Z) : Z := if n =? 1 then 12 else n - 1.

(** [p] occurs in [s] as a substring. *)
Definition substring (p s : jsstring) : Prop :=
  exists pre post, s = pre ++ p ++ post.

(** The filename contains one or two digits directly followed by 月,
    and the digits denote [n]. *)
Definition contains_month_token (f : jsstring) (n : Z) : Prop :=
  exists pre ds post,
    f = pre ++ ds ++ tsuki :: post /\
    forallb is_digit_any ds = true /\
    (1 <= length ds <= 2)%nat /\
    numeral ds = n.

(** The filename contains a two-digit number between delimiters
    ([_], [-] or [.]), and the number is [n]. *)
Definition contains_delimited (f : jsstring) (n : Z) : Prop :=
  exists pre o d1 d2 cl post,
    f = pre ++ o :: d1 :: d2 :: cl :: post /\
    is_close_delim o = true /\ is_close_delim cl = true /\
    is_ascii_digit d1 = true /\ is_ascii_digit d2 = true /\
    numeral [d1; d2] = n.

(** The filename contains, whatever the case of its letters, a name of
    the table that stands for month [m]. *)
Definition contains_month_name (f : jsstring) (m : Z) : Prop :=
  exists name, In (name, m) monthNames /\ substring name (toLowerCase f).

(** Deciding that an expression matches at no index below [n]. *)
Definition no_match_before (r : regex) (s : jsstring) (n : nat) : bool :=
  forallb (fun i => match match_here r (skipn i s) with
                    | Some _ => false
                    | None => true
                    end) (seq 0 n).

(** A character outside the classes of pattern 2. *)
Definition barrier2 (x : Z) : Prop :=
  is_ascii_digit x = false /\ is_close_delim x = false.

(** A letter of a-z. *)
Definition is_lower_letter (c : Z) : bool := (97 <=? c) && (c <=? 122).

(** The three-letter names of the table. *)
Definition abbreviations : list (jsstring * Z) :=
  [ (js "jan", 1); (js "feb", 2); (js "mar", 3); (js "apr", 4);
    (js "may", 5); (js "jun", 6); (js "jul", 7); (js "aug", 8);
    (js "sep", 9); (js "oct", 10); (js "nov", 11); (js "dec", 12) ].

(** The months of a table never decrease along it. *)
Definition months_ascending (entries : list (jsstring * Z)) : Prop :=
  StronglySorted (fun a b => snd a <= snd b) entries.

(** The detected month of an entry is the detector's answer for the name
    of its file. *)
Definition detected_matches_name (uploadedFiles : list Upload.UploadedFile) : Prop :=
  Forall (fun e => Upload.detectedMonth e =
                   detectMonthFromFilename (Upload.name (Upload.file e)))
         uploadedFiles.

(** The entity the three [replace] calls of [addResultRow] leave for one
    character of the text. *)
Definition entity_of (c : Z) : jsstring :=
  if c =? 38 then js "&amp;"
  else if c =? 60 then js "&lt;"
  else if c =? 62 then js "&gt;"
  else [c].

(** The keys of [fields] that [addResultRow] lists. *)
Definition month_keys (fs : list (jsstring * jsstring)) : list jsstring :=
  filter (fun key => negb (Render.str_eqb key (js "ocr_confidence"))) (map fst fs).

(** The number the comparator of the sort reads in a key. *)
Definition key_month (key : jsstring) : jsnum :=
  parseInt (Render.remove_first (js "月値") key).

Definition numeric_key (key : jsstring) : Prop :=
  exists z, key_month key = Num z.

Definition key_number (key : jsstring) : Z :=
  match key_month key with
  | Num z => z
  | NaN => 0
  end.

Definition is_ocr_row (r : Render.row) : Prop :=
  match r with
  | Render.Row _ _ _ _ => False
  | _ => True
  end.

Definition is_success_row (r : Render.row) : Prop :=
  exists month kwh title, r = Render.Row month kwh Render.BadgeSuccess title.

(** The element [renderFileList] writes for the entry at an index. *)
Definition rendered_item (currentMode : jsstring) (item : Upload.UploadedFile) (index : nat)
  : UI.FileItemEl :=
  UI.Build_FileItemEl
    (Upload.name (Upload.file item))
    index
    (Upload.name (Upload.file item))
    (if Render.str_eqb currentMode (js "single") then
       Some (UI.Build_SelectEl index
               (map (fun m =>
                       UI.Build_OptionEl
                         (Upload.template_number m)
                         (js_strict_eq (Upload.selectedMonth item) m)
                         (Upload.template_number m ++ [tsuki]))
                    UI.month_numbers))
     else None)
    index.

(** An element of the view without its [selected] marks, which a change
    of a dropdown leaves behind. *)
Definition forget_selected (item : UI.FileItemEl) : UI.FileItemEl :=
  UI.Build_FileItemEl
    (UI.name_title item) (UI.data_index item) (UI.name_text item)
    (match UI.monthSelector item with
     | Some sel =>
         Some (UI.Build_SelectEl (UI.onchange_index sel)
                 (map (fun o => UI.Build_OptionEl (UI.opt_value o) false (UI.opt_label o))
                      (UI.select_options sel)))
     | None => None
     end)
    (UI.remove_index item).

(** The view shows the list: it is what [renderFileList] would write
    now, up to the [selected] marks. *)
Definition in_sync (st : UI.State) : Prop :=
  map forget_selected (UI.fileList st) =
  map forget_selected (UI.renderFileList (UI.currentMode st) (UI.uploadedFiles st)).

(** [formData.getAll(key)] *)
Definition parts (key : jsstring) (formData : list (jsstring * UI.FormValue))
  : list UI.FormValue :=
  map snd (filter (fun kv => Render.str_eqb (fst kv) key) formData).

(* ------------------------------------------------------------------ *)
(** * The matcher *)
(* ------------------------------------------------------------------ *)

(** How the literals of this file read as code units. *)
Example js_literal :
  js "12月分_report.pdf" =
  [49; 50; 0x6708; 0x5206; 95; 114; 101; 112; 111; 114; 116; 46; 112; 100; 102].
Proof. reflexivity. Qed.

Example js_fullwidth : js "１2月" = [0xFF11; 50; tsuki].
Proof. reflexivity. Qed.

Section Engine.

Variable c : Z -> bool.

Lemma run_length_le : forall lim s, (run_length c lim s <= length s)%nat.
Proof.
  intros lim s; revert lim.
  induction s as [|x s IH]; intros [[|m]|]; simpl; try lia;
    destruct (c x); simpl; try lia.
  - specialize (IH (Some m)); lia.
  - specialize (IH None); lia.
Qed.

Lemma run_length_within : forall lim s, within lim (run_length c lim s).
Proof.
  intros lim s; revert lim.
  induction s as [|x s IH]; intros [[|m]|]; simpl; try lia; auto.
  destruct (c x); simpl; try lia.
  specialize (IH (Some m)); simpl in IH; lia.
Qed.

Lemma run_length_forallb : forall lim s,
  forallb c (firstn (run_length c lim s) s) = true.
Proof.
  intros lim s; revert lim.
  induction s as [|x s IH]; intros [[|m]|]; simpl; auto;
    destruct (c x) eqn:E; simpl; auto; rewrite E; simpl; apply IH.
Qed.

Lemma run_length_greatest : forall u lim s,
  forallb c u = true -> within lim (length u) ->
  (length u <= run_length c lim (u ++ s))%nat.
Proof.
  induction u as [|x u IH]; intros lim s Hall Hlim; simpl in *; try lia.
  apply andb_true_iff in Hall; destruct Hall as [Hx Hu].
  destruct lim as [[|m]|]; simpl in *; try lia; rewrite Hx.
  - specialize (IH (Some m) s Hu); simpl in IH; lia.
  - specialize (IH None s Hu I); lia.
Qed.

Lemma forallb_firstn_le : forall (s : jsstring) k n,
  (k <= n)%nat -> forallb c (firstn n s) = true -> forallb c (firstn k s) = true.
Proof.
  induction s as [|x s IH]; intros [|k] [|n] Hle H; simpl in *; auto; try lia.
  apply andb_true_iff in H; destruct H as [Hx Hs].
  rewrite Hx; simpl; apply IH with n; auto; lia.
Qed.

End Engine.

Lemma backtrack_Some : forall A lo k (f : nat -> option A) a,
  backtrack lo k f = Some a ->
  exists j, (lo <= j <= k)%nat /\ f j = Some a /\
            forall j', (j < j' <= k)%nat -> f j' = None.
Proof.
  induction k as [|k IH]; intros f a H; simpl in H.
  - destruct (Nat.ltb_spec 0 lo); try discriminate.
    destruct (f 0%nat) eqn:E; try discriminate.
    exists 0%nat; repeat split; try lia; try congruence.
  - destruct (Nat.ltb_spec (S k) lo); try discriminate.
    destruct (f (S k)) eqn:E.
    + exists (S k); repeat split; try lia; try congruence.
    + destruct (IH f a H) as (j & Hj & Hf & Hn).
      exists j; repeat split; try lia; auto.
      intros j' Hj'. destruct (Nat.eq_dec j' (S k)); subst; auto.
      apply Hn; lia.
Qed.

Lemma backtrack_None : forall A lo k (f : nat -> option A),
  backtrack lo k f = None <-> (forall j, (lo <= j <= k)%nat -> f j = None).
Proof.
  induction k as [|k IH]; intros f; simpl.
  - destruct (Nat.ltb_spec 0 lo); split; intros H0; auto; try (intros; lia).
    + destruct (f 0%nat) eqn:E; try discriminate.
      intros j Hj. replace j with 0%nat by lia; auto.
    + rewrite H0; auto; lia.
  - destruct (Nat.ltb_spec (S k) lo); split; intros H0; auto; try (intros; lia).
    + destruct (f (S k)) eqn:E; try discriminate.
      intros j Hj. destruct (Nat.eq_dec j (S k)); subst; auto.
      apply (proj1 (IH f) H0); lia.
    + rewrite H0 by lia. apply IH. intros; apply H0; lia.
Qed.

(** Whatever the matcher returns is a match in the declarative sense. *)
Lemma match_here_sound : forall r s g rest,
  match_here r s = Some (g, rest) -> Matches r s g rest.
Proof.
  induction r as [|p r IH]; intros s g rest H; simpl in H.
  - inversion H; subst; constructor.
  - apply backtrack_Some in H. destruct H as (k & Hk & Hf & _).
    destruct (match_here r (skipn k s)) as [[g' rest']|] eqn:E; try discriminate.
    inversion Hf; subst; clear Hf.
    rewrite <- (firstn_skipn k s) at 1.
    assert (Hlen : length (firstn k s) = k).
    { apply firstn_length_le.
      pose proof (run_length_le (cls p) (rmax p) s). lia. }
    apply Matches_cons; auto.
    + apply forallb_firstn_le with (n := run_length (cls p) (rmax p) s); try lia.
      apply run_length_forallb.
    + lia.
    + rewrite Hlen. pose proof (run_length_within (cls p) (rmax p) s) as W.
      destruct (rmax p); simpl in *; auto; lia.
Qed.

(** Where a declarative match exists, the matcher finds one. *)
Lemma match_here_complete : forall r s g rest,
  Matches r s g rest -> exists g' rest', match_here r s = Some (g', rest').
Proof.
  induction 1 as [s | p r u s g rest Hall Hmin Hmax HM IH]; simpl.
  - eauto.
  - destruct (backtrack (rmin p) (run_length (cls p) (rmax p) (u ++ s)) _) as [[g' rest']|] eqn:E.
    + eauto.
    + exfalso. rewrite backtrack_None in E.
      specialize (E (length u)).
      rewrite skipn_app, skipn_all, Nat.sub_diag in E; simpl in E.
      destruct IH as (g1 & r1 & IH). rewrite IH in E.
      assert (Some (if captured p then Some (firstn (length u) (u ++ s)) else g1, r1) = None).
      { apply E. split; auto. apply run_length_greatest; auto. }
      discriminate.
Qed.

Lemma match_here_None : forall r s,
  match_here r s = None -> forall g rest, ~ Matches r s g rest.
Proof.
  intros r s H g rest HM. apply match_here_complete in HM.
  destruct HM as (g' & rest' & HM); congruence.
Qed.

(** [search_from] returns the leftmost index at which the matcher succeeds. *)
Lemma search_from_Some : forall r s i j g,
  search_from r i s = Some (j, g) ->
  exists k rest, j = (i + k)%nat /\ (k <= length s)%nat /\
    match_here r (skipn k s) = Some (g, rest) /\
    forall k', (k' < k)%nat -> match_here r (skipn k' s) = None.
Proof.
  intros r s; induction s as [|x s IH]; intros i j g H; simpl in H.
  - destruct (match_here r []) as [[g' rest]|] eqn:E; try discriminate.
    inversion H; subst. exists 0%nat, rest; repeat split; auto; try lia.
  - destruct (match_here r (x :: s)) as [[g' rest]|] eqn:E.
    + inversion H; subst. exists 0%nat, rest; repeat split; auto; try lia.
    + apply IH in H. destruct H as (k & rest & Hj & Hk & Hm & Hn).
      exists (S k), rest; repeat split; simpl; auto; try lia.
      intros [|k'] Hk'; simpl; auto. apply Hn; lia.
Qed.

Lemma search_from_leftmost : forall r s k i g rest,
  match_here r (skipn k s) = Some (g, rest) ->
  (forall k', (k' < k)%nat -> match_here r (skipn k' s) = None) ->
  search_from r i s = Some ((i + k)%nat, g).
Proof.
  intros r s k; revert s; induction k as [|k IH]; intros s i g rest Hm Hn.
  - simpl in Hm. destruct s; simpl; rewrite Hm; f_equal; f_equal; lia.
  - destruct s as [|x s].
    + simpl in Hm. specialize (Hn 0%nat ltac:(lia)); simpl in Hn; congruence.
    + pose proof (Hn 0%nat ltac:(lia)) as H0. simpl in H0. simpl. rewrite H0.
      replace (i + S k)%nat with (S i + k)%nat by lia.
      apply IH with rest; auto.
      intros k' Hk'. apply (Hn (S k')); lia.
Qed.

Lemma search_from_None : forall r s i,
  search_from r i s = None <->
  (forall k, (k <= length s)%nat -> match_here r (skipn k s) = None).
Proof.
  intros r s; induction s as [|x s IH]; intros i; simpl.
  - destruct (match_here r []) as [[g rest]|] eqn:E; split; intros H; try discriminate; auto.
    + specialize (H 0%nat ltac:(lia)); simpl in H; congruence.
    + intros k Hk. destruct k; simpl; auto.
  - destruct (match_here r (x :: s)) as [[g rest]|] eqn:E; split; intros H; try discriminate.
    + specialize (H 0%nat ltac:(lia)); simpl in H; congruence.
    + intros [|k] Hk; simpl; auto. apply (proj1 (IH (S i)) H); lia.
    + apply IH. intros k Hk. apply (H (S k)); lia.
Qed.

(* ------------------------------------------------------------------ *)
(** * The two expressions, read directly *)
(* ------------------------------------------------------------------ *)

Ltac class_facts :=
  unfold is_digit_any, is_ascii_digit, is_fullwidth_digit, is_space,
         is_tsuki, tsuki, is_open_delim, is_close_delim in *;
  repeat rewrite ?andb_true_iff, ?orb_true_iff, ?andb_false_iff,
                 ?orb_false_iff, ?Z.eqb_eq, ?Z.leb_le, ?Z.eqb_neq,
                 ?Z.leb_gt in *;
  lia.

Lemma digit_not_space : forall c, is_digit_any c = true -> is_space c = false.
Proof. intros c H. class_facts. Qed.

Lemma digit_not_tsuki : forall c, is_digit_any c = true -> is_tsuki c = false.
Proof. intros c H. class_facts. Qed.

Lemma space_not_tsuki : forall c, is_space c = true -> is_tsuki c = false.
Proof. intros c H. class_facts. Qed.

Lemma space_not_digit : forall c, is_space c = true -> is_digit_any c = false.
Proof. intros c H. class_facts. Qed.

Lemma tsuki_not_digit : is_digit_any tsuki = false.
Proof. reflexivity. Qed.

Section Direct.

#[local] Arguments is_space : simpl never.
#[local] Arguments is_digit_any : simpl never.
#[local] Arguments is_ascii_digit : simpl never.
#[local] Arguments is_tsuki : simpl never.
#[local] Arguments is_open_delim : simpl never.
#[local] Arguments is_close_delim : simpl never.

Lemma run_length_0 : forall c (t : jsstring), run_length c (Some 0%nat) t = 0%nat.
Proof. intros c [|x t]; reflexivity. Qed.

Lemma skipn_run_length : forall c (t : jsstring),
  skipn (run_length c None t) t = drop_while c t.
Proof.
  induction t as [|x t IH]; simpl; auto.
  destruct (c x); simpl; auto.
Qed.

Lemma skipn_below_run : forall c lim (t : jsstring) k,
  (k < run_length c lim t)%nat ->
  exists x rest, skipn k t = x :: rest /\ c x = true.
Proof.
  intros c lim t; revert lim.
  induction t as [|x t IH]; intros lim k Hk.
  - destruct lim as [[|m]|]; simpl in Hk; lia.
  - destruct lim as [[|m]|]; simpl in Hk; try lia;
      destruct (c x) eqn:E; try lia;
      (destruct k as [|k]; [exists x, t; auto | simpl; eapply IH; apply PeanoNat.lt_S_n; exact Hk]).
Qed.

Lemma tsuki_piece_here : forall u,
  match_here [Piece is_tsuki 1 (Some 1%nat) false] u =
  match u with
  | c :: rest => if is_tsuki c then Some (None, rest) else None
  | [] => None
  end.
Proof.
  intros [|c rest]; simpl; auto.
  destruct (is_tsuki c); simpl; auto.
  rewrite run_length_0. reflexivity.
Qed.

Lemma tail1_here : forall t,
  match_here [Piece is_space 0 None false; Piece is_tsuki 1 (Some 1%nat) false] t =
  match drop_while is_space t with
  | c :: rest => if is_tsuki c then Some (None, rest) else None
  | [] => None
  end.
Proof.
  intros t.
  change (match_here [Piece is_space 0 None false; Piece is_tsuki 1 (Some 1%nat) false] t)
    with (backtrack 0 (run_length is_space None t)
            (fun k => match match_here [Piece is_tsuki 1 (Some 1%nat) false] (skipn k t) with
                      | Some (g, rest) => Some (g, rest)
                      | None => None
                      end)).
  rewrite <- skipn_run_length.
  set (n := run_length is_space None t).
  set (f := fun k : nat => _).
  assert (Hf : forall k, f k = match skipn k t with
                               | c :: rest => if is_tsuki c then Some (None, rest) else None
                               | [] => None
                               end).
  { intros k. unfold f. rewrite tsuki_piece_here.
    destruct (skipn k t) as [|c rest]; auto. destruct (is_tsuki c); auto. }
  rewrite <- Hf.
  destruct (f n) as [a|] eqn:E.
  - destruct n; simpl; rewrite E; reflexivity.
  - apply backtrack_None. intros k Hk.
    destruct (Nat.eq_dec k n) as [->|Hne]; auto.
    rewrite Hf.
    destruct (@skipn_below_run is_space None t k) as (x & rest & Hs & Hx).
    { fold n. lia. }
    rewrite Hs, (space_not_tsuki _ Hx). reflexivity.
Qed.

Lemma after_digits_digit : forall g b t,
  is_digit_any b = true -> after_digits g (b :: t) = None.
Proof.
  intros g b t Hb. unfold after_digits. simpl.
  rewrite (digit_not_space _ Hb), (digit_not_tsuki _ Hb). reflexivity.
Qed.

Theorem match_here_pattern1 : forall s, match_here pattern1 s = pattern1_here s.
Proof.
  intros s. unfold pattern1.
  set (tl := [Piece is_space 0 None false; Piece is_tsuki 1 (Some 1%nat) false]).
  destruct s as [|a t]; [reflexivity|].
  cbn [match_here cls rmin rmax captured run_length pattern1_here option_map Nat.pred].
  destruct (is_digit_any a) eqn:Ea; [|reflexivity].
  destruct t as [|b t'].
  - cbn [run_length backtrack Nat.ltb Nat.leb skipn firstn].
    unfold tl at 1. rewrite tail1_here. reflexivity.
  - cbn [run_length option_map Nat.pred].
    destruct (is_digit_any b) eqn:Eb.
    + rewrite run_length_0.
      cbn [backtrack Nat.ltb Nat.leb skipn firstn].
      unfold tl. rewrite !tail1_here. unfold after_digits.
      cbn [drop_while].
      rewrite (digit_not_space _ Eb), (digit_not_tsuki _ Eb).
      destruct (drop_while is_space t') as [|c rest]; [reflexivity|].
      destruct (is_tsuki c); reflexivity.
    + cbn [backtrack Nat.ltb Nat.leb skipn firstn].
      unfold tl. rewrite !tail1_here. unfold after_digits.
      destruct (drop_while is_space (b :: t')) as [|c rest]; [reflexivity|].
      destruct (is_tsuki c); reflexivity.
Qed.

Theorem match_here_pattern2 : forall s, match_here pattern2 s = pattern2_here s.
Proof.
  intros s. unfold pattern2, pattern2_here.
  destruct s as [|o [|d1 [|d2 [|cl rest]]]]; simpl;
    repeat match goal with
           | |- context [if ?b then _ else _] =>
               match b with
               | is_open_delim _ => destruct b eqn:?
               | is_ascii_digit _ => destruct b eqn:?
               | is_close_delim _ => destruct b eqn:?
               end; simpl
           end; rewrite ?run_length_0; try reflexivity.
Qed.

End Direct.

(* ------------------------------------------------------------------ *)
(** * Lemmas on the built-ins *)
(* ------------------------------------------------------------------ *)

Lemma starts_with_iff : forall p s,
  starts_with p s = true <-> exists post, s = p ++ post.
Proof.
  induction p as [|x p IH]; intros s; simpl.
  - split; eauto.
  - destruct s as [|y s]; split; try discriminate.
    + intros [post H]; discriminate.
    + intros H. apply andb_true_iff in H. destruct H as [Hxy Hp].
      apply Z.eqb_eq in Hxy; subst. apply IH in Hp. destruct Hp as [post ->].
      eauto.
    + intros [post H]. inversion H; subst.
      rewrite Z.eqb_refl; simpl. apply IH; eauto.
Qed.

Lemma includes_iff : forall s p, includes s p = true <-> substring p s.
Proof.
  unfold substring.
  induction s as [|y s IH]; intros p; simpl.
  - rewrite orb_false_r, starts_with_iff. split.
    + intros [post H]. exists [], post; auto.
    + intros (pre & post & H). destruct pre; simpl in H; try discriminate. eauto.
  - rewrite orb_true_iff, starts_with_iff, IH. split.
    + intros [[post H] | (pre & post & H)].
      * exists [], post; auto.
      * exists (y :: pre), post; simpl; congruence.
    + intros (pre & post & H). destruct pre as [|z pre]; simpl in H.
      * left; eauto.
      * right. inversion H; subst. eauto.
Qed.

Lemma take_while_all : forall c (s : jsstring),
  forallb c s = true -> take_while c s = s.
Proof.
  induction s as [|x s IH]; simpl; auto. intros H.
  apply andb_true_iff in H. destruct H as [-> Hs]. f_equal; auto.
Qed.

Lemma halfwidth_is_digit : forall ds,
  forallb is_digit_any ds = true ->
  forallb is_ascii_digit (fullwidth_to_halfwidth ds) = true.
Proof.
  induction ds as [|c ds IH]; simpl; auto. intros H.
  apply andb_true_iff in H. destruct H as [Hc Hds].
  rewrite (IH Hds), andb_true_r.
  destruct (is_fullwidth_digit c) eqn:E; class_facts.
Qed.

Lemma digits_value_numeral : forall ds acc,
  forallb is_digit_any ds = true ->
  fold_left (fun a c => 10 * a + digit_value c) (fullwidth_to_halfwidth ds) acc =
  fold_left (fun a c => 10 * a + digit_of c) ds acc.
Proof.
  induction ds as [|c ds IH]; simpl; auto. intros acc H.
  apply andb_true_iff in H. destruct H as [Hc Hds].
  rewrite (IH _ Hds). f_equal. f_equal.
  unfold digit_value, digit_of.
  destruct (is_fullwidth_digit c) eqn:E.
  - assert (is_ascii_digit (c - 0xFEE0) = true) as -> by class_facts. lia.
  - assert (is_ascii_digit c = true) as -> by class_facts. reflexivity.
Qed.

(** On a run of ASCII digits [parseInt] reads the whole run in radix 10. *)
Lemma parseInt_ascii_digits : forall s,
  s <> [] -> forallb is_ascii_digit s = true ->
  parseInt s = Num (digits_value 10 s).
Proof.
  intros [|c0 s] Hne Hall; [congruence|]. simpl in Hall.
  apply andb_true_iff in Hall. destruct Hall as [H0 Hs].
  unfold parseInt. simpl drop_while.
  assert (is_space c0 = false) as -> by class_facts.
  assert ((c0 =? 45) = false) as -> by class_facts.
  assert ((c0 =? 43) = false) as -> by class_facts.
  assert (Htw : take_while is_ascii_digit (c0 :: s) = c0 :: s).
  { simpl. rewrite H0, (take_while_all _ _ Hs). reflexivity. }
  destruct s as [|c1 s'].
  - cbv zeta iota beta. rewrite Htw. f_equal. lia.
  - simpl in Hs. apply andb_true_iff in Hs. destruct Hs as [H1 _].
    assert (((c1 =? 120) || (c1 =? 88)) = false) as -> by class_facts.
    rewrite andb_false_r. cbv zeta iota beta. rewrite Htw. f_equal. lia.
Qed.

Lemma parseInt_numeral : forall ds,
  ds <> [] -> forallb is_digit_any ds = true ->
  parseInt (fullwidth_to_halfwidth ds) = Num (numeral ds).
Proof.
  intros ds Hne Hall.
  rewrite parseInt_ascii_digits.
  - unfold digits_value, numeral. rewrite digits_value_numeral; auto.
  - destruct ds; simpl; congruence.
  - apply halfwidth_is_digit; auto.
Qed.

Lemma halfwidth_ascii : forall ds,
  forallb is_ascii_digit ds = true -> fullwidth_to_halfwidth ds = ds.
Proof.
  induction ds as [|c ds IH]; simpl; auto. intros H.
  apply andb_true_iff in H. destruct H as [Hc Hds].
  rewrite (IH Hds). assert (is_fullwidth_digit c = false) as -> by class_facts.
  reflexivity.
Qed.

Lemma ascii_is_digit_any : forall ds,
  forallb is_ascii_digit ds = true -> forallb is_digit_any ds = true.
Proof.
  induction ds as [|c ds IH]; simpl; auto. intros H.
  apply andb_true_iff in H. destruct H as [Hc Hds].
  rewrite (IH Hds), andb_true_r. unfold is_digit_any. rewrite Hc. reflexivity.
Qed.

Lemma numeral_1 : forall a, numeral [a] = digit_of a.
Proof. intros a. unfold numeral. cbn [fold_left]. lia. Qed.

Lemma numeral_2 : forall a b, numeral [a; b] = 10 * digit_of a + digit_of b.
Proof. intros a b. unfold numeral. cbn [fold_left]. lia. Qed.

Lemma digit_of_bounds : forall c, is_digit_any c = true -> 0 <= digit_of c <= 9.
Proof.
  intros c H. unfold digit_of.
  destruct (is_fullwidth_digit c) eqn:E; class_facts.
Qed.

Lemma numeral_bounds : forall ds,
  forallb is_digit_any ds = true -> (length ds <= 2)%nat -> 0 <= numeral ds <= 99.
Proof.
  intros [|a [|b [|c ds]]] H Hlen; cbn [length forallb] in *; try lia.
  - unfold numeral; simpl; lia.
  - rewrite andb_true_r in H. rewrite numeral_1.
    pose proof (digit_of_bounds _ H). lia.
  - rewrite andb_true_r in H. apply andb_true_iff in H. destruct H as [Ha Hb].
    rewrite numeral_2.
    pose proof (digit_of_bounds _ Ha). pose proof (digit_of_bounds _ Hb). lia.
Qed.

(** The three statements after [parseInt], on an integer. *)
Lemma offset_and_check_Num : forall n,
  offset_and_check (Num n) =
  if (1 <=? n) && (n <=? 13) then Some (Num (offset_month n)) else None.
Proof.
  intros n. unfold offset_and_check, offset_month, js_sub, js_strict_eq.
  destruct (Z.eqb_spec (n - 1) 0); destruct (Z.eqb_spec n 1); try lia.
  - subst. reflexivity.
  - unfold js_ge, js_le.
    destruct (Z.leb_spec 1 (n - 1)); destruct (Z.leb_spec (n - 1) 12);
      destruct (Z.leb_spec 1 n); destruct (Z.leb_spec n 13); simpl; auto; lia.
Qed.

Lemma offset_and_check_range : forall x y,
  offset_and_check x = Some y -> exists m, y = Num m /\ 1 <= m <= 12.
Proof.
  intros [n|] y; [|discriminate].
  rewrite offset_and_check_Num.
  destruct (Z.leb_spec 1 n); destruct (Z.leb_spec n 13); simpl; try discriminate.
  unfold offset_month. intros Hy; inversion Hy; subst.
  eexists; split; [reflexivity|]. destruct (Z.eqb_spec n 1); lia.
Qed.

(** The detector is the three blocks in sequence. *)
Lemma detect_blocks : forall f,
  detectMonthFromFilename f =
  match heuristic1 f with
  | Some month => Some month
  | None =>
      match heuristic2 f with
      | Some month => Some month
      | None => heuristic3 f
      end
  end.
Proof.
  intros f. unfold detectMonthFromFilename, heuristic1, heuristic2, heuristic3,
    offset_and_check.
  destruct (String_match pattern1 f) as [[i [g|]]|];
    destruct (String_match pattern2 f) as [[j [h|]]|]; reflexivity.
Qed.

(* ------------------------------------------------------------------ *)
(** * The first match of each expression *)
(* ------------------------------------------------------------------ *)

Lemma occurs_at_match_here : forall r s i,
  occurs_at r s i <-> match_here r (skipn i s) <> None.
Proof.
  intros r s i. unfold occurs_at. split.
  - intros (g & rest & HM) E. eapply match_here_None; eauto.
  - destruct (match_here r (skipn i s)) as [[g rest]|] eqn:E; [|congruence].
    intros _. exists g, rest. apply match_here_sound; auto.
Qed.

Lemma not_occurs_at : forall r s i,
  ~ occurs_at r s i -> match_here r (skipn i s) = None.
Proof.
  intros r s i H. destruct (match_here r (skipn i s)) eqn:E; auto.
  exfalso. apply H. apply occurs_at_match_here. congruence.
Qed.

(** The match at index [k] is the one [String.prototype.match] reports
    when the expression matches at no index before [k]. *)
Lemma String_match_first : forall r s k g rest,
  match_here r (skipn k s) = Some (g, rest) ->
  (forall i, (i < k)%nat -> ~ occurs_at r s i) ->
  String_match r s = Some (k, g).
Proof.
  intros r s k g rest Hm Hn. unfold String_match.
  rewrite (search_from_leftmost r s k 0 g rest Hm); auto.
  intros k' Hk'. apply not_occurs_at; auto.
Qed.

Lemma String_match_None : forall r s,
  String_match r s = None <-> (forall i, ~ occurs_at r s i).
Proof.
  intros r s. unfold String_match. rewrite search_from_None. split.
  - intros H i Ho. apply occurs_at_match_here in Ho. apply Ho.
    destruct (Nat.le_gt_cases i (length s)) as [Hi|Hi]; auto.
    rewrite skipn_all2 by lia.
    rewrite <- (skipn_all s). apply H; lia.
  - intros H k _. apply not_occurs_at; auto.
Qed.

Lemma drop_while_spaces : forall ws x rest,
  forallb is_space ws = true -> is_space x = false ->
  drop_while is_space (ws ++ x :: rest) = x :: rest.
Proof.
  induction ws as [|w ws IH]; intros x rest Hws Hx; simpl.
  - rewrite Hx; reflexivity.
  - simpl in Hws. apply andb_true_iff in Hws. destruct Hws as [-> Hws]. auto.
Qed.

Lemma after_digits_token : forall g ws rest,
  forallb is_space ws = true ->
  after_digits g (ws ++ tsuki :: rest) = Some (Some g, rest).
Proof.
  intros g ws rest Hws. unfold after_digits.
  rewrite drop_while_spaces; auto.
Qed.

(** One or two digits, white space, 月: pattern 1 matches here and
    captures exactly the digits. *)
Lemma pattern1_here_token : forall ds ws rest,
  forallb is_digit_any ds = true -> (1 <= length ds <= 2)%nat ->
  forallb is_space ws = true ->
  match_here pattern1 (ds ++ ws ++ tsuki :: rest) = Some (Some ds, rest).
Proof.
  intros ds ws rest Hds Hlen Hws. rewrite match_here_pattern1.
  destruct ds as [|a [|b [|c ds]]]; cbn [length] in Hlen; try lia;
    cbn [forallb] in Hds.
  - rewrite andb_true_r in Hds.
    destruct ws as [|w ws]; cbn [app pattern1_here]; rewrite Hds.
    + rewrite tsuki_not_digit. apply (after_digits_token [a] []); auto.
    + cbn [forallb] in Hws. apply andb_true_iff in Hws. destruct Hws as [Hw Hws].
      rewrite (space_not_digit _ Hw).
      apply (after_digits_token [a] (w :: ws)). cbn [forallb]. rewrite Hw; auto.
  - rewrite andb_true_r in Hds. apply andb_true_iff in Hds. destruct Hds as [Ha Hb].
    cbn [app pattern1_here]. rewrite Ha, Hb. apply after_digits_token; auto.
Qed.

Lemma pattern2_here_token : forall o d1 d2 cl rest,
  is_open_delim o = true -> is_ascii_digit d1 = true ->
  is_ascii_digit d2 = true -> is_close_delim cl = true ->
  match_here pattern2 (o :: d1 :: d2 :: cl :: rest) = Some (Some [d1; d2], rest).
Proof.
  intros o d1 d2 cl rest Ho H1 H2 Hc. rewrite match_here_pattern2.
  simpl. rewrite Ho, H1, H2, Hc. reflexivity.
Qed.

(** The first block of the detector at the first token of pattern 1. *)
Lemma heuristic1_first_token : forall pre ds ws post,
  forallb is_digit_any ds = true -> (1 <= length ds <= 2)%nat ->
  forallb is_space ws = true ->
  (forall i, (i < length pre)%nat ->
     ~ occurs_at pattern1 (pre ++ ds ++ ws ++ tsuki :: post) i) ->
  heuristic1 (pre ++ ds ++ ws ++ tsuki :: post) =
  offset_and_check (Num (numeral ds)).
Proof.
  intros pre ds ws post Hds Hlen Hws Hfirst. unfold heuristic1.
  rewrite (@String_match_first pattern1 _ (length pre) (Some ds) post); auto.
  - rewrite parseInt_numeral; auto. destruct ds; simpl in Hlen; try lia; congruence.
  - rewrite skipn_app, skipn_all, Nat.sub_diag. simpl.
    apply pattern1_here_token; auto.
Qed.

(** The second block of the detector at the first token of pattern 2. *)
Lemma heuristic2_first_token : forall pre o d1 d2 cl post,
  is_open_delim o = true -> is_ascii_digit d1 = true ->
  is_ascii_digit d2 = true -> is_close_delim cl = true ->
  (forall i, (i < length pre)%nat ->
     ~ occurs_at pattern2 (pre ++ o :: d1 :: d2 :: cl :: post) i) ->
  heuristic2 (pre ++ o :: d1 :: d2 :: cl :: post) =
  offset_and_check (Num (numeral [d1; d2])).
Proof.
  intros pre o d1 d2 cl post Ho H1 H2 Hc Hfirst. unfold heuristic2.
  rewrite (@String_match_first pattern2 _ (length pre) (Some [d1; d2]) post); auto.
  - assert (Hd : forallb is_ascii_digit [d1; d2] = true) by (simpl; rewrite H1, H2; auto).
    rewrite <- (halfwidth_ascii _ Hd) at 1.
    rewrite parseInt_numeral; auto. congruence.
    apply ascii_is_digit_any; auto.
  - rewrite skipn_app, skipn_all, Nat.sub_diag. simpl.
    apply pattern2_here_token; auto.
Qed.

(** What it means for the two expressions to match at an index. *)
Lemma occurs_at_pattern1 : forall s i,
  occurs_at pattern1 s i <->
  exists pre ds ws post,
    s = pre ++ ds ++ ws ++ tsuki :: post /\ length pre = i /\
    forallb is_digit_any ds = true /\ (1 <= length ds <= 2)%nat /\
    forallb is_space ws = true.
Proof.
  intros s i. split.
  - intros (g & rest & HM). unfold pattern1 in HM.
    inversion HM as [|p1 r1 u1 s1 g1 rest1 Hc1 Hmin1 Hmax1 HM1 [Ep1 Er1] Es1 Eg1 Erest1];
      subst; clear HM.
    inversion HM1 as [|p2 r2 u2 s2 g2 rest2 Hc2 Hmin2 Hmax2 HM2]; subst; clear HM1.
    inversion HM2 as [|p3 r3 u3 s3 g3 rest3 Hc3 Hmin3 Hmax3 HM3]; subst; clear HM2.
    inversion HM3; subst; clear HM3.
    simpl in *.
    destruct u3 as [|t [|t' u3]]; simpl in *; try lia.
    rewrite andb_true_r in Hc3. apply Z.eqb_eq in Hc3. subst t.
    assert (Hi : (i < length s)%nat).
    { destruct (Nat.lt_ge_cases i (length s)) as [Hlt|Hge]; auto.
      rewrite skipn_all2 in Es1 by lia.
      destruct u1; simpl in *; [lia|discriminate]. }
    exists (firstn i s), u1, u2, rest.
    repeat split; auto; try lia.
    + rewrite <- (firstn_skipn i s) at 1. rewrite <- Es1. reflexivity.
    + apply firstn_length_le. lia.
  - intros (pre & ds & ws & post & -> & <- & Hds & Hlen & Hws).
    apply occurs_at_match_here.
    rewrite skipn_app, skipn_all, Nat.sub_diag. cbn [app skipn].
    rewrite (pattern1_here_token ds ws post Hds Hlen Hws). discriminate.
Qed.

Lemma occurs_at_pattern2 : forall s i,
  occurs_at pattern2 s i <->
  exists pre o d1 d2 cl post,
    s = pre ++ o :: d1 :: d2 :: cl :: post /\ length pre = i /\
    is_open_delim o = true /\ is_ascii_digit d1 = true /\
    is_ascii_digit d2 = true /\ is_close_delim cl = true.
Proof.
  intros s i. split.
  - intros Ho. apply occurs_at_match_here in Ho.
    rewrite match_here_pattern2 in Ho. unfold pattern2_here in Ho.
    destruct (skipn i s) as [|o [|d1 [|d2 [|cl post]]]] eqn:E; try congruence.
    destruct (is_open_delim o) eqn:Eo; simpl in Ho; try congruence.
    destruct (is_ascii_digit d1) eqn:E1; simpl in Ho; try congruence.
    destruct (is_ascii_digit d2) eqn:E2; simpl in Ho; try congruence.
    destruct (is_close_delim cl) eqn:Ec; simpl in Ho; try congruence.
    assert (Hi : (i < length s)%nat).
    { destruct (Nat.lt_ge_cases i (length s)) as [Hlt|Hge]; auto.
      rewrite skipn_all2 in E by lia. discriminate. }
    exists (firstn i s), o, d1, d2, cl, post. repeat split; auto.
    + rewrite <- (firstn_skipn i s) at 1. rewrite E. reflexivity.
    + apply firstn_length_le. lia.
  - intros (pre & o & d1 & d2 & cl & post & -> & <- & Ho & H1 & H2 & Hc).
    apply occurs_at_match_here.
    rewrite skipn_app, skipn_all, Nat.sub_diag. cbn [app skipn].
    rewrite (pattern2_here_token o d1 d2 cl post Ho H1 H2 Hc). discriminate.
Qed.

Lemma no_match_before_correct : forall r s n,
  no_match_before r s n = true ->
  forall i, (i < n)%nat -> ~ occurs_at r s i.
Proof.
  intros r s n H i Hi Ho. unfold no_match_before in H.
  rewrite forallb_forall in H.
  specialize (H i). rewrite in_seq in H. specialize (H ltac:(lia)).
  apply occurs_at_match_here in Ho.
  destruct (match_here r (skipn i s)); congruence.
Qed.

Lemma for_entries_In : forall entries l m,
  for_entries entries l = Some m ->
  exists name z, m = Num z /\ In (name, z) entries /\ includes l name = true.
Proof.
  induction entries as [|[name month] rest IH]; intros l m H; simpl in H.
  - discriminate.
  - destruct (includes l name) eqn:E.
    + inversion H; subst. exists name, month; repeat split; simpl; auto.
    + destruct (IH l m H) as (n & z & Hz & Hin & Hi).
      exists n, z; repeat split; simpl; auto.
Qed.

Lemma for_entries_None : forall entries l,
  for_entries entries l = None <->
  (forall name m, In (name, m) entries -> includes l name = false).
Proof.
  induction entries as [|[name month] rest IH]; intros l; simpl.
  - split; auto. intros _ name m [].
  - destruct (includes l name) eqn:E; split; intros H; try discriminate.
    + specialize (H name month (or_introl eq_refl)). congruence.
    + intros n m [Heq|Hin]; [inversion Heq; subst; auto|].
      apply (proj1 (IH l) H n m Hin).
    + apply IH. intros n m Hin. apply (H n m); auto.
Qed.

(** The loop returns the month of the first entry whose name occurs. *)
Lemma for_entries_first : forall before name m rest l,
  (forall n' m', In (n', m') before -> includes l n' = false) ->
  includes l name = true ->
  for_entries (before ++ (name, m) :: rest) l = Some (Num m).
Proof.
  induction before as [|[n0 m0] before IH]; intros name m rest l Hb Hn; simpl.
  - rewrite Hn; reflexivity.
  - rewrite (Hb n0 m0 (or_introl eq_refl)). apply IH; auto.
    intros n' m' Hin. apply (Hb n' m'). right; auto.
Qed.

Lemma monthNames_range : forall name m, In (name, m) monthNames -> 1 <= m <= 12.
Proof.
  intros name m H. unfold monthNames in H. simpl in H.
  repeat (destruct H as [H|H]; [inversion H; subst; lia|]). destruct H.
Qed.

(** What the detector returns is an integer in [1,12]. *)
Lemma detect_range : forall f y,
  detectMonthFromFilename f = Some y -> exists m, y = Num m /\ 1 <= m <= 12.
Proof.
  intros f y. rewrite detect_blocks.
  destruct (heuristic1 f) as [y1|] eqn:E1.
  - intros H; inversion H; subst. unfold heuristic1 in E1.
    destruct (String_match pattern1 f) as [[i [g|]]|]; try discriminate.
    apply offset_and_check_range in E1. exact E1.
  - destruct (heuristic2 f) as [y2|] eqn:E2.
    + intros H; inversion H; subst. unfold heuristic2 in E2.
      destruct (String_match pattern2 f) as [[i [g|]]|]; try discriminate.
      apply offset_and_check_range in E2. exact E2.
    + intros E3. unfold heuristic3 in E3. apply for_entries_In in E3.
      destruct E3 as (name & z & -> & Hin & _).
      exists z; split; auto. eapply monthNames_range; eauto.
Qed.

(* ------------------------------------------------------------------ *)
(** * Properties of [detectMonthFromFilename] *)
(* ------------------------------------------------------------------ *)

(** C1, as the specification states it, does not hold: the filename
    "1月2月分.pdf" contains the digit 2 followed by 月, and 2 is in
    [1,12], yet the detector answers 12 (from the first token, 1月) and
    not 2 - 1 = 1. *)
Lemma C1_later_token_ignored :
  contains_month_token (js "1月2月分.pdf") 2 /\
  1 <= 2 <= 12 /\
  detectMonthFromFilename (js "1月2月分.pdf") = Some (Num 12) /\
  offset_month 2 = 1.
Proof.
  split; [|split; [lia|split; reflexivity]].
  exists (js "1月"), [50], (js "分.pdf").
  repeat split; try reflexivity; simpl; lia.
Qed.

(** C1, amended: when one or two digits (of either width) directly
    followed by 月 form the first match of pattern 1 in the filename (the
    expression matches at no earlier index) and denote NN in [1,12], the
    detector returns NN - 1, with NN = 1 giving 12. In particular
    "12月分_report.pdf" gives 11. *)
Theorem C1_first_month_token :
  (forall pre ds post,
     forallb is_digit_any ds = true ->
     (1 <= length ds <= 2)%nat ->
     (forall i, (i < length pre)%nat ->
        ~ occurs_at pattern1 (pre ++ ds ++ tsuki :: post) i) ->
     1 <= numeral ds <= 12 ->
     detectMonthFromFilename (pre ++ ds ++ tsuki :: post) =
     Some (Num (offset_month (numeral ds))))
  /\ detectMonthFromFilename (js "12月分_report.pdf") = Some (Num 11).
Proof.
  split; [|reflexivity].
  intros pre ds post Hds Hlen Hfirst Hrange.
  rewrite detect_blocks.
  pose proof (heuristic1_first_token pre ds [] post Hds Hlen eq_refl Hfirst) as H1.
  cbn [app] in H1. rewrite H1.
  rewrite offset_and_check_Num.
  destruct (Z.leb_spec 1 (numeral ds)); destruct (Z.leb_spec (numeral ds) 13);
    simpl; auto; lia.
Qed.

Lemma C1_first_month_token_witness :
  forallb is_digit_any (js "１2") = true /\
  (1 <= length (js "１2") <= 2)%nat /\
  (forall i, (i < length (js "請求書_"))%nat ->
     ~ occurs_at pattern1 (js "請求書_" ++ js "１2" ++ tsuki :: js "分.pdf") i) /\
  1 <= numeral (js "１2") <= 12 /\
  detectMonthFromFilename (js "請求書_" ++ js "１2" ++ tsuki :: js "分.pdf") =
  Some (Num (offset_month (numeral (js "１2")))).
Proof.
  assert (H1 : forallb is_digit_any (js "１2") = true) by reflexivity.
  assert (H2 : (1 <= length (js "１2") <= 2)%nat) by (simpl; lia).
  assert (H3 : forall i, (i < length (js "請求書_"))%nat ->
     ~ occurs_at pattern1 (js "請求書_" ++ js "１2" ++ tsuki :: js "分.pdf") i).
  { apply no_match_before_correct. vm_compute. reflexivity. }
  assert (H4 : 1 <= numeral (js "１2") <= 12) by (vm_compute; split; discriminate).
  split; [exact H1|]. split; [exact H2|]. split; [exact H3|]. split; [exact H4|].
  apply (proj1 C1_first_month_token (js "請求書_") (js "１2") (js "分.pdf") H1 H2 H3 H4).
Defined.

(** C2: the range check comes after the subtraction, so the numeral 13
    (outside [1,12]) is not rejected: it becomes 12 and is returned, by
    pattern 1 and by pattern 2 alike, although the later patterns would
    have found nothing. *)
Theorem C2_thirteen_is_accepted :
  numeral (js "13") = 13 /\
  heuristic1 (js "13月.pdf") = Some (Num 12) /\
  heuristic2 (js "13月.pdf") = None /\
  heuristic3 (js "13月.pdf") = None /\
  detectMonthFromFilename (js "13月.pdf") = Some (Num 12) /\
  heuristic2 (js "bill_13_.pdf") = Some (Num 12) /\
  detectMonthFromFilename (js "bill_13_.pdf") = Some (Num 12).
Proof. repeat split; reflexivity. Qed.

(** The remaining numerals outside [1,12] are rejected: the block falls
    through to the next statement. *)
Lemma offset_and_check_rejects : forall n,
  n <= 0 \/ 14 <= n -> offset_and_check (Num n) = None.
Proof.
  intros n Hn. rewrite offset_and_check_Num.
  destruct (Z.leb_spec 1 n); destruct (Z.leb_spec n 13); simpl; auto; lia.
Qed.

(** At the first token of pattern 1 every numeral but 1..13 is rejected,
    and 13 is taken for December. *)
Lemma heuristic1_first_token_outcome : forall pre ds ws post,
  forallb is_digit_any ds = true -> (1 <= length ds <= 2)%nat ->
  forallb is_space ws = true ->
  (forall i, (i < length pre)%nat ->
     ~ occurs_at pattern1 (pre ++ ds ++ ws ++ tsuki :: post) i) ->
  (numeral ds = 0 \/ 14 <= numeral ds <= 99 ->
   heuristic1 (pre ++ ds ++ ws ++ tsuki :: post) = None) /\
  (numeral ds = 13 ->
   heuristic1 (pre ++ ds ++ ws ++ tsuki :: post) = Some (Num 12)) /\
  0 <= numeral ds <= 99.
Proof.
  intros pre ds ws post Hds Hlen Hws Hfirst.
  rewrite (heuristic1_first_token pre ds ws post Hds Hlen Hws Hfirst).
  split; [|split].
  - intros H. apply offset_and_check_rejects. lia.
  - intros ->. reflexivity.
  - apply numeral_bounds; auto. lia.
Qed.

(** C5: the blocks are tried in the order pattern 1, pattern 2, month
    names, and the first block that returns fixes the result: what the
    later blocks would return plays no part. *)
Theorem C5_priority_order : forall f,
  (forall m, heuristic1 f = Some m -> detectMonthFromFilename f = Some m) /\
  (forall m, heuristic1 f = None -> heuristic2 f = Some m ->
             detectMonthFromFilename f = Some m) /\
  (heuristic1 f = None -> heuristic2 f = None ->
   detectMonthFromFilename f = heuristic3 f).
Proof.
  intros f. rewrite detect_blocks. repeat split.
  - intros m ->. reflexivity.
  - intros m -> ->. reflexivity.
  - intros -> ->. reflexivity.
Qed.

Lemma C5_priority_order_witness :
  heuristic1 (js "3月_07_dec.pdf") = Some (Num 2) /\
  heuristic2 (js "3月_07_dec.pdf") = Some (Num 6) /\
  heuristic3 (js "3月_07_dec.pdf") = Some (Num 12) /\
  detectMonthFromFilename (js "3月_07_dec.pdf") = Some (Num 2) /\
  heuristic1 (js "x_07_dec.pdf") = None /\
  detectMonthFromFilename (js "x_07_dec.pdf") = Some (Num 6) /\
  heuristic2 (js "xdec.pdf") = None /\
  detectMonthFromFilename (js "xdec.pdf") = heuristic3 (js "xdec.pdf").
Proof.
  assert (A : heuristic1 (js "3月_07_dec.pdf") = Some (Num 2)) by reflexivity.
  assert (B : heuristic1 (js "x_07_dec.pdf") = None) by reflexivity.
  assert (B' : heuristic2 (js "x_07_dec.pdf") = Some (Num 6)) by reflexivity.
  assert (C : heuristic1 (js "xdec.pdf") = None) by reflexivity.
  assert (C' : heuristic2 (js "xdec.pdf") = None) by reflexivity.
  split; [exact A|]. split; [reflexivity|]. split; [reflexivity|].
  split; [exact (proj1 (C5_priority_order _) _ A)|].
  split; [exact B|].
  split; [exact (proj1 (proj2 (C5_priority_order _)) _ B B')|].
  split; [exact C'|].
  exact (proj2 (proj2 (C5_priority_order _)) C C').
Defined.

(** C6: a filename in which pattern 1 matches nowhere, pattern 2 matches
    nowhere and whose lower-cased form contains no name of the table
    gives [null]; "readme.pdf" is one. *)
Theorem C6_no_heuristic_gives_null :
  (forall f,
     (forall i, ~ occurs_at pattern1 f i) ->
     (forall i, ~ occurs_at pattern2 f i) ->
     (forall name m, In (name, m) monthNames -> ~ substring name (toLowerCase f)) ->
     detectMonthFromFilename f = None)
  /\ detectMonthFromFilename (js "readme.pdf") = None.
Proof.
  split; [|reflexivity].
  intros f H1 H2 H3. rewrite detect_blocks.
  unfold heuristic1, heuristic2, heuristic3.
  rewrite (proj2 (String_match_None pattern1 f) H1).
  rewrite (proj2 (String_match_None pattern2 f) H2).
  apply for_entries_None. intros name m Hin.
  destruct (includes (toLowerCase f) name) eqn:E; auto.
  exfalso. apply (H3 name m Hin). apply includes_iff; auto.
Qed.

Lemma C6_no_heuristic_gives_null_witness :
  (forall i, ~ occurs_at pattern1 (js "readme.pdf") i) /\
  (forall i, ~ occurs_at pattern2 (js "readme.pdf") i) /\
  (forall name m, In (name, m) monthNames ->
                  ~ substring name (toLowerCase (js "readme.pdf"))) /\
  detectMonthFromFilename (js "readme.pdf") = None.
Proof.
  assert (H1 : forall i, ~ occurs_at pattern1 (js "readme.pdf") i).
  { apply String_match_None. reflexivity. }
  assert (H2 : forall i, ~ occurs_at pattern2 (js "readme.pdf") i).
  { apply String_match_None. reflexivity. }
  assert (H3 : forall name m, In (name, m) monthNames ->
                  ~ substring name (toLowerCase (js "readme.pdf"))).
  { intros name m Hin Hs. apply includes_iff in Hs.
    assert (E : for_entries monthNames (toLowerCase (js "readme.pdf")) = None)
      by reflexivity.
    rewrite (proj1 (for_entries_None _ _) E name m Hin) in Hs. discriminate. }
  split; [exact H1|]. split; [exact H2|]. split; [exact H3|].
  exact (proj1 C6_no_heuristic_gives_null (js "readme.pdf") H1 H2 H3).
Defined.

(** C7: whatever the filename, the result is [null] or an integer in
    [1,12]; NaN and integers out of range are never returned. *)
Theorem C7_result_range : forall f,
  detectMonthFromFilename f = None \/
  exists m, detectMonthFromFilename f = Some (Num m) /\ 1 <= m <= 12.
Proof.
  intros f. destruct (detectMonthFromFilename f) as [y|] eqn:E; auto.
  right. destruct (detect_range f y E) as (m & -> & Hm). eauto.
Qed.

Lemma not_substring : forall p s, includes s p = false -> ~ substring p s.
Proof.
  intros p s H Hs. apply includes_iff in Hs. congruence.
Qed.

(** C3, as the specification states it, does not hold: the filename
    "2025_06_07_bill.pdf" contains the delimited token "_07_", yet the
    detector answers 5 (from the earlier token "_06_") and not 6. *)
Lemma C3_earlier_token_wins :
  substring (js "_07_") (js "2025_06_07_bill.pdf") /\
  contains_delimited (js "2025_06_07_bill.pdf") 7 /\
  1 <= 7 <= 12 /\
  detectMonthFromFilename (js "2025_06_07_bill.pdf") = Some (Num 5) /\
  offset_month 7 = 6.
Proof.
  split; [|split; [|split; [lia|split; reflexivity]]].
  - exists (js "2025_06"), (js "bill.pdf"). reflexivity.
  - exists (js "2025_06"), 95, 48, 55, 95, (js "bill.pdf").
    repeat split; reflexivity.
Qed.

(** C3, amended: when the first block returns nothing and the first
    match of pattern 2 in the filename (a [_] or [-], two ASCII digits,
    then [_], [-] or [.]; the expression matches at no earlier index)
    captures NN in [1,12], the detector returns NN - 1, with NN = 1 giving
    12. So a filename whose first such token is "_07_" gives 6, and
    "invoice_2025-12.pdf" gives 11. *)
Theorem C3_first_delimited_token :
  (forall pre o d1 d2 cl post,
     is_open_delim o = true -> is_ascii_digit d1 = true ->
     is_ascii_digit d2 = true -> is_close_delim cl = true ->
     heuristic1 (pre ++ o :: d1 :: d2 :: cl :: post) = None ->
     (forall i, (i < length pre)%nat ->
        ~ occurs_at pattern2 (pre ++ o :: d1 :: d2 :: cl :: post) i) ->
     1 <= numeral [d1; d2] <= 12 ->
     detectMonthFromFilename (pre ++ o :: d1 :: d2 :: cl :: post) =
     Some (Num (offset_month (numeral [d1; d2]))))
  /\ (forall pre post,
        heuristic1 (pre ++ js "_07_" ++ post) = None ->
        (forall i, (i < length pre)%nat ->
           ~ occurs_at pattern2 (pre ++ js "_07_" ++ post) i) ->
        detectMonthFromFilename (pre ++ js "_07_" ++ post) = Some (Num 6))
  /\ detectMonthFromFilename (js "invoice_2025-12.pdf") = Some (Num 11).
Proof.
  assert (G : forall pre o d1 d2 cl post,
     is_open_delim o = true -> is_ascii_digit d1 = true ->
     is_ascii_digit d2 = true -> is_close_delim cl = true ->
     heuristic1 (pre ++ o :: d1 :: d2 :: cl :: post) = None ->
     (forall i, (i < length pre)%nat ->
        ~ occurs_at pattern2 (pre ++ o :: d1 :: d2 :: cl :: post) i) ->
     1 <= numeral [d1; d2] <= 12 ->
     detectMonthFromFilename (pre ++ o :: d1 :: d2 :: cl :: post) =
     Some (Num (offset_month (numeral [d1; d2])))).
  { intros pre o d1 d2 cl post Ho H1 H2 Hc Hh1 Hfirst Hrange.
    rewrite detect_blocks, Hh1.
    rewrite (heuristic2_first_token pre o d1 d2 cl post Ho H1 H2 Hc Hfirst).
    rewrite offset_and_check_Num.
    destruct (Z.leb_spec 1 (numeral [d1; d2]));
      destruct (Z.leb_spec (numeral [d1; d2]) 13); simpl; auto; lia. }
  split; [exact G|]. split; [|reflexivity].
  intros pre post Hh1 Hfirst.
  change (pre ++ js "_07_" ++ post) with (pre ++ 95 :: 48 :: 55 :: 95 :: post) in *.
  rewrite (G pre 95 48 55 95 post); auto.
  rewrite numeral_2. vm_compute. split; discriminate.
Qed.

Lemma C3_first_delimited_token_witness :
  heuristic1 (js "東京_2025" ++ 45 :: 48 :: 49 :: 46 :: js "pdf") = None /\
  (forall i, (i < length (js "東京_2025"))%nat ->
     ~ occurs_at pattern2 (js "東京_2025" ++ 45 :: 48 :: 49 :: 46 :: js "pdf") i) /\
  1 <= numeral [48; 49] <= 12 /\
  detectMonthFromFilename (js "東京_2025" ++ 45 :: 48 :: 49 :: 46 :: js "pdf") =
  Some (Num (offset_month (numeral [48; 49]))).
Proof.
  assert (H1 : heuristic1 (js "東京_2025" ++ 45 :: 48 :: 49 :: 46 :: js "pdf") = None)
    by reflexivity.
  assert (H2 : forall i, (i < length (js "東京_2025"))%nat ->
     ~ occurs_at pattern2 (js "東京_2025" ++ 45 :: 48 :: 49 :: 46 :: js "pdf") i).
  { apply no_match_before_correct. vm_compute. reflexivity. }
  assert (H3 : 1 <= numeral [48; 49] <= 12) by (vm_compute; split; discriminate).
  split; [exact H1|]. split; [exact H2|]. split; [exact H3|].
  exact (proj1 C3_first_delimited_token (js "東京_2025") 45 48 49 46 (js "pdf")
           eq_refl eq_refl eq_refl eq_refl H1 H2 H3).
Defined.

(** C4, as the specification states it, does not hold: the filename
    "December_summary.pdf" contains the name "december" and matches no
    numeric pattern, yet the detector answers 3: "mar" (inside
    "summary") stands before "dec" in the table. *)
Lemma C4_earlier_table_entry_wins :
  contains_month_name (js "December_summary.pdf") 12 /\
  String_match pattern1 (js "December_summary.pdf") = None /\
  String_match pattern2 (js "December_summary.pdf") = None /\
  detectMonthFromFilename (js "December_summary.pdf") = Some (Num 3).
Proof.
  split; [|repeat split; reflexivity].
  exists (js "december"). split.
  - unfold monthNames. simpl. tauto.
  - exists [], (js "_summary.pdf"). reflexivity.
Qed.

(** C4, amended: when neither numeric pattern matches, the detector
    returns, with no offset, the month of the first entry of the table (in
    the order jan, january, feb, ..., december) whose name occurs in the
    lower-cased filename; so when every name of the table that occurs
    stands for the same month, that month is returned. In particular
    "March_bill.pdf" gives 3. *)
Theorem C4_first_name_in_table_order :
  (forall f before name m rest,
     monthNames = before ++ (name, m) :: rest ->
     (forall n' m', In (n', m') before -> ~ substring n' (toLowerCase f)) ->
     substring name (toLowerCase f) ->
     (forall i, ~ occurs_at pattern1 f i) ->
     (forall i, ~ occurs_at pattern2 f i) ->
     detectMonthFromFilename f = Some (Num m))
  /\ (forall f m,
        contains_month_name f m ->
        (forall m', contains_month_name f m' -> m' = m) ->
        (forall i, ~ occurs_at pattern1 f i) ->
        (forall i, ~ occurs_at pattern2 f i) ->
        detectMonthFromFilename f = Some (Num m))
  /\ detectMonthFromFilename (js "March_bill.pdf") = Some (Num 3).
Proof.
  assert (N : forall f, (forall i, ~ occurs_at pattern1 f i) ->
                        (forall i, ~ occurs_at pattern2 f i) ->
                        detectMonthFromFilename f = heuristic3 f).
  { intros f H1 H2. rewrite detect_blocks. unfold heuristic1, heuristic2.
    rewrite (proj2 (String_match_None pattern1 f) H1).
    rewrite (proj2 (String_match_None pattern2 f) H2). reflexivity. }
  split; [|split; [|reflexivity]].
  - intros f before name m rest Htab Hbefore Hname H1 H2.
    rewrite (N f H1 H2). unfold heuristic3. rewrite Htab.
    apply for_entries_first.
    + intros n' m' Hin. destruct (includes (toLowerCase f) n') eqn:E; auto.
      exfalso. apply (Hbefore n' m' Hin). apply includes_iff; auto.
    + apply includes_iff; auto.
  - intros f m (name & Hin & Hsub) Honly H1 H2.
    rewrite (N f H1 H2). unfold heuristic3.
    destruct (for_entries monthNames (toLowerCase f)) as [y|] eqn:E.
    + apply for_entries_In in E. destruct E as (n & z & -> & Hn & Hi).
      f_equal. f_equal. apply Honly. exists n. split; auto.
      apply includes_iff; auto.
    + exfalso. apply includes_iff in Hsub.
      rewrite (proj1 (for_entries_None _ _) E name m Hin) in Hsub. discriminate.
Qed.

Lemma C4_first_name_in_table_order_witness :
  monthNames =
    [(js "jan", 1); (js "january", 1); (js "feb", 2); (js "february", 2)]
      ++ (js "mar", 3) :: skipn 5 monthNames /\
  (forall n' m',
     In (n', m') [(js "jan", 1); (js "january", 1); (js "feb", 2); (js "february", 2)] ->
     ~ substring n' (toLowerCase (js "MARCH_bill.pdf"))) /\
  substring (js "mar") (toLowerCase (js "MARCH_bill.pdf")) /\
  (forall i, ~ occurs_at pattern1 (js "MARCH_bill.pdf") i) /\
  (forall i, ~ occurs_at pattern2 (js "MARCH_bill.pdf") i) /\
  detectMonthFromFilename (js "MARCH_bill.pdf") = Some (Num 3).
Proof.
  assert (H0 : monthNames =
    [(js "jan", 1); (js "january", 1); (js "feb", 2); (js "february", 2)]
      ++ (js "mar", 3) :: skipn 5 monthNames) by reflexivity.
  assert (H1 : forall n' m',
     In (n', m') [(js "jan", 1); (js "january", 1); (js "feb", 2); (js "february", 2)] ->
     ~ substring n' (toLowerCase (js "MARCH_bill.pdf"))).
  { intros n' m' Hin. apply not_substring.
    simpl in Hin.
    repeat (destruct Hin as [Hin|Hin]; [inversion Hin; subst; reflexivity|]).
    destruct Hin. }
  assert (H2 : substring (js "mar") (toLowerCase (js "MARCH_bill.pdf"))).
  { apply includes_iff. reflexivity. }
  assert (H3 : forall i, ~ occurs_at pattern1 (js "MARCH_bill.pdf") i).
  { apply String_match_None. reflexivity. }
  assert (H4 : forall i, ~ occurs_at pattern2 (js "MARCH_bill.pdf") i).
  { apply String_match_None. reflexivity. }
  split; [exact H0|]. split; [exact H1|]. split; [exact H2|].
  split; [exact H3|]. split; [exact H4|].
  exact (proj1 C4_first_name_in_table_order (js "MARCH_bill.pdf") _ _ _ _
           H0 H1 H2 H3 H4).
Defined.

(* ------------------------------------------------------------------ *)
(** * White space between the digits and 月 *)
(* ------------------------------------------------------------------ *)

Section Whitespace.

Variables (ds ws post : jsstring).
Hypothesis Hds : forallb is_digit_any ds = true.
Hypothesis Hlen : (1 <= length ds <= 2)%nat.
Hypothesis Hws : forallb is_space ws = true.

(** The text from the digits on, with and without the white space. *)
Let spaced : jsstring := ds ++ ws ++ tsuki :: post.
Let tight : jsstring := ds ++ tsuki :: post.

Lemma after_digits_space : forall g y t,
  is_space y = true -> after_digits g (y :: t) = after_digits g t.
Proof.
  intros g y t Hy. unfold after_digits. simpl. rewrite Hy. reflexivity.
Qed.

Lemma after_digits_other : forall g y t,
  is_space y = false ->
  after_digits g (y :: t) = if is_tsuki y then Some (Some g, t) else None.
Proof.
  intros g y t Hy. unfold after_digits. simpl. rewrite Hy. reflexivity.
Qed.

Lemma spaced_head_digit : exists d ds', ds = d :: ds' /\ is_digit_any d = true.
Proof.
  destruct ds as [|d ds']; simpl in Hlen; [lia|].
  simpl in Hds. apply andb_true_iff in Hds. destruct Hds as [Hd _].
  exists d, ds'. auto.
Qed.

Lemma after_digits_agree : forall g u,
  option_map fst (after_digits g (u ++ spaced)) =
  option_map fst (after_digits g (u ++ tight)).
Proof.
  intros g u. destruct spaced_head_digit as (d & ds' & Eds & Hd).
  induction u as [|y u IH]; simpl.
  - unfold spaced, tight. rewrite Eds. simpl.
    rewrite !after_digits_digit; auto.
  - destruct (is_space y) eqn:Ey.
    + rewrite !after_digits_space; auto.
    + rewrite !after_digits_other; auto. destruct (is_tsuki y); reflexivity.
Qed.

Lemma pattern1_here_agree : forall u,
  option_map fst (match_here pattern1 (u ++ spaced)) =
  option_map fst (match_here pattern1 (u ++ tight)).
Proof.
  intros u. destruct u as [|x [|y u]].
  - cbn [app]. unfold spaced, tight.
    rewrite (pattern1_here_token ds ws post Hds Hlen Hws).
    pose proof (pattern1_here_token ds [] post Hds Hlen eq_refl) as H.
    cbn [app] in H. rewrite H. reflexivity.
  - rewrite !match_here_pattern1.
    destruct spaced_head_digit as (d & ds' & Eds & Hd).
    unfold spaced, tight. rewrite Eds. cbn [app pattern1_here].
    destruct (is_digit_any x); [|reflexivity]. rewrite Hd.
    destruct ds' as [|e ds''].
    + cbn [app]. rewrite (after_digits_token [x; d] ws post Hws).
      pose proof (after_digits_token [x; d] [] post eq_refl) as H.
      cbn [app] in H. rewrite H. reflexivity.
    + assert (He : is_digit_any e = true).
      { rewrite Eds in Hds. simpl in Hds.
        apply andb_true_iff in Hds. destruct Hds as [_ H].
        apply andb_true_iff in H. tauto. }
      cbn [app]. rewrite !after_digits_digit; auto.
  - rewrite !match_here_pattern1. cbn [app pattern1_here].
    destruct (is_digit_any x); [|reflexivity].
    destruct (is_digit_any y).
    + apply after_digits_agree.
    + apply (after_digits_agree [x] (y :: u)).
Qed.

Lemma search_from_hit : forall r i s g rest,
  match_here r s = Some (g, rest) -> search_from r i s = Some (i, g).
Proof.
  intros r i s g rest H. destruct s; simpl; rewrite H; reflexivity.
Qed.

(** Pattern 1 finds the same match, at the same index, with and without
    the white space. *)
Lemma search_pattern1_agree : forall pre i,
  search_from pattern1 i (pre ++ spaced) = search_from pattern1 i (pre ++ tight) /\
  search_from pattern1 i (pre ++ spaced) <> None.
Proof.
  induction pre as [|x pre IH]; intros i.
  - cbn [app]. unfold spaced, tight.
    rewrite (search_from_hit pattern1 i _ _ _ (pattern1_here_token ds ws post Hds Hlen Hws)).
    pose proof (pattern1_here_token ds [] post Hds Hlen eq_refl) as H. cbn [app] in H.
    rewrite (search_from_hit pattern1 i _ _ _ H). split; congruence.
  - pose proof (pattern1_here_agree (x :: pre)) as HA.
    cbn [app] in HA. cbn [app search_from].
    destruct (match_here pattern1 (x :: pre ++ spaced)) as [[g1 r1]|];
      destruct (match_here pattern1 (x :: pre ++ tight)) as [[g2 r2]|];
      simpl in HA; try discriminate.
    + inversion HA; subst. split; congruence.
    + apply IH.
Qed.

End Whitespace.

(** ** Characters that no token of pattern 2 and no month name contains *)

Lemma search_capture_index : forall r s i j,
  option_map snd (search_from r i s) = option_map snd (search_from r j s).
Proof.
  intros r s; induction s as [|x s IH]; intros i j; simpl.
  - destruct (match_here r []) as [[g rest]|]; reflexivity.
  - destruct (match_here r (x :: s)) as [[g rest]|]; auto.
Qed.

Lemma barrier2_open : forall x, barrier2 x -> is_open_delim x = false.
Proof. intros x [_ H]. class_facts. Qed.

Lemma space_barrier2 : forall x, is_space x = true -> barrier2 x.
Proof. intros x H. split; class_facts. Qed.

Lemma tsuki_barrier2 : barrier2 tsuki.
Proof. split; reflexivity. Qed.

Lemma pattern2_here_barrier_head : forall x b,
  barrier2 x -> pattern2_here (x :: b) = None.
Proof.
  intros x b Hx. pose proof (barrier2_open x Hx) as Ho.
  destruct b as [|d1 [|d2 [|cl rest]]]; cbn [pattern2_here]; auto.
  rewrite Ho. reflexivity.
Qed.

Lemma pattern2_here_barrier : forall y a x b,
  barrier2 x ->
  option_map fst (pattern2_here (y :: a ++ x :: b)) =
  option_map fst (pattern2_here (y :: a)).
Proof.
  intros y a x b [Hd Hc].
  destruct a as [|d1 [|d2 [|cl rest]]]; cbn [app pattern2_here].
  - destruct b as [|? [|? ?]]; cbn [pattern2_here]; auto.
    rewrite Hd, andb_false_r. reflexivity.
  - destruct b as [|? ?]; cbn [pattern2_here]; auto.
    rewrite Hd, andb_false_r. reflexivity.
  - rewrite Hc, andb_false_r. reflexivity.
  - destruct (is_open_delim y && is_ascii_digit d1 && is_ascii_digit d2
              && is_close_delim cl); reflexivity.
Qed.

(** The first capture of pattern 2 in [a ++ x :: b], for a character [x]
    outside its classes, is the first capture in [a], else in [b]. *)
Lemma pattern2_barrier : forall a x b i,
  barrier2 x ->
  option_map snd (search_from pattern2 i (a ++ x :: b)) =
  match option_map snd (search_from pattern2 i a) with
  | Some g => Some g
  | None => option_map snd (search_from pattern2 i b)
  end.
Proof.
  induction a as [|y a IH]; intros x b i Hx.
  - cbn [app search_from]. rewrite !match_here_pattern2.
    rewrite pattern2_here_barrier_head by auto. cbn [pattern2_here option_map].
    apply search_capture_index.
  - cbn [app search_from]. rewrite !match_here_pattern2.
    pose proof (pattern2_here_barrier y a x b Hx) as HA.
    destruct (pattern2_here (y :: a ++ x :: b)) as [[g1 r1]|];
      destruct (pattern2_here (y :: a)) as [[g2 r2]|];
      simpl in HA; try discriminate.
    + inversion HA; subst. reflexivity.
    + rewrite (IH x b (S i) Hx).
      rewrite (search_capture_index pattern2 b (S i) i). reflexivity.
Qed.

Lemma pattern2_barriers : forall bs a b i,
  bs <> [] -> Forall barrier2 bs ->
  option_map snd (search_from pattern2 i (a ++ bs ++ b)) =
  match option_map snd (search_from pattern2 i a) with
  | Some g => Some g
  | None => option_map snd (search_from pattern2 i b)
  end.
Proof.
  induction bs as [|x bs IH]; intros a b i Hne Hall; [congruence|].
  inversion Hall as [|? ? Hx Hbs]; subst.
  destruct bs as [|y bs'].
  - cbn [app]. apply pattern2_barrier; auto.
  - change (a ++ (x :: y :: bs') ++ b) with (a ++ x :: ([] ++ (y :: bs') ++ b)).
    rewrite pattern2_barrier by auto.
    rewrite (IH [] b i) by (auto; congruence).
    cbn [search_from]. rewrite match_here_pattern2. reflexivity.
Qed.

Lemma starts_with_barrier : forall p a x b,
  ~ In x p -> starts_with p (a ++ x :: b) = starts_with p a.
Proof.
  induction p as [|c p IH]; intros a x b Hx.
  - destruct a; reflexivity.
  - destruct a as [|y a]; cbn [app starts_with].
    + destruct (Z.eqb_spec c x); [|reflexivity].
      exfalso. apply Hx. left; auto.
    + rewrite IH; auto. intros H. apply Hx. right; auto.
Qed.

(** A name occurs in [a ++ x :: b], for a character [x] outside the
    name, exactly when it occurs in [a] or in [b]. *)
Lemma includes_barrier : forall p a x b,
  ~ In x p -> includes (a ++ x :: b) p = includes a p || includes b p.
Proof.
  intros p a x b Hx. induction a as [|y a IH]; cbn [app includes].
  - pose proof (starts_with_barrier p [] x b Hx) as H. cbn [app] in H.
    rewrite H, orb_false_r. reflexivity.
  - rewrite IH. pose proof (starts_with_barrier p (y :: a) x b Hx) as H.
    cbn [app] in H. rewrite H, orb_assoc. reflexivity.
Qed.

Lemma includes_barriers : forall p bs a b,
  p <> [] -> bs <> [] -> (forall x, In x bs -> ~ In x p) ->
  includes (a ++ bs ++ b) p = includes a p || includes b p.
Proof.
  intros p. induction bs as [|x bs IH]; intros a b Hp Hne Hall; [congruence|].
  destruct bs as [|y bs'].
  - cbn [app]. apply includes_barrier. apply Hall; left; auto.
  - change (a ++ (x :: y :: bs') ++ b) with (a ++ x :: ([] ++ (y :: bs') ++ b)).
    rewrite includes_barrier by (apply Hall; left; auto).
    rewrite (IH [] b) by (auto; try congruence; intros z Hz; apply Hall; right; auto).
    cbn [includes]. destruct p; [congruence|reflexivity].
Qed.

Lemma monthNames_letters : forall name m,
  In (name, m) monthNames -> name <> [] /\ forallb is_lower_letter name = true.
Proof.
  intros name m H. unfold monthNames in H. simpl in H.
  repeat (destruct H as [H|H];
          [inversion H; subst; split; [discriminate|reflexivity]|]).
  destruct H.
Qed.

Lemma lower_unit_fixed : forall c,
  is_space c = true \/ c = tsuki -> lower_unit c = [c] /\ is_lower_letter c = false.
Proof.
  intros c H. unfold lower_unit.
  assert (((65 <=? c) && (c <=? 90)) = false) as -> by (destruct H; class_facts).
  assert ((c =? 0x130) = false) as -> by (destruct H; class_facts).
  assert ((c =? 0x212A) = false) as -> by (destruct H; class_facts).
  split; auto. unfold is_lower_letter. destruct H; class_facts.
Qed.

Lemma toLowerCase_fixed : forall bs,
  Forall (fun c => is_space c = true \/ c = tsuki) bs -> toLowerCase bs = bs.
Proof.
  induction 1 as [|c bs Hc Hbs IH]; auto.
  unfold toLowerCase in *. cbn [flat_map]. rewrite IH.
  rewrite (proj1 (lower_unit_fixed c Hc)). reflexivity.
Qed.

Lemma toLowerCase_app : forall a b,
  toLowerCase (a ++ b) = toLowerCase a ++ toLowerCase b.
Proof. intros a b. apply flat_map_app. Qed.

Lemma for_entries_agree : forall entries l1 l2,
  (forall name m, In (name, m) entries -> includes l1 name = includes l2 name) ->
  for_entries entries l1 = for_entries entries l2.
Proof.
  induction entries as [|[name m] rest IH]; intros l1 l2 H; simpl; auto.
  rewrite (H name m (or_introl eq_refl)).
  destruct (includes l2 name); auto.
  apply IH. intros n z Hin. apply (H n z). right; auto.
Qed.

(** Removing a run of white space in front of a 月 changes neither the
    capture of pattern 2 nor the month name found. *)
Lemma later_blocks_agree : forall a ws post,
  forallb is_space ws = true ->
  heuristic2 (a ++ ws ++ tsuki :: post) = heuristic2 (a ++ tsuki :: post) /\
  heuristic3 (a ++ ws ++ tsuki :: post) = heuristic3 (a ++ tsuki :: post).
Proof.
  intros a ws post Hws.
  assert (Hsp : Forall (fun c => is_space c = true) ws).
  { apply Forall_forall. apply forallb_forall. exact Hws. }
  assert (Hfix : Forall (fun c => is_space c = true \/ c = tsuki) (ws ++ [tsuki])).
  { apply Forall_app. split.
    - eapply Forall_impl; [|exact Hsp]. auto.
    - constructor; [right; reflexivity|constructor]. }
  assert (E1 : a ++ ws ++ tsuki :: post = a ++ (ws ++ [tsuki]) ++ post).
  { rewrite <- app_assoc. reflexivity. }
  assert (E2 : a ++ tsuki :: post = a ++ [tsuki] ++ post) by reflexivity.
  split.
  - assert (C : option_map snd (String_match pattern2 (a ++ ws ++ tsuki :: post)) =
                option_map snd (String_match pattern2 (a ++ tsuki :: post))).
    { unfold String_match. rewrite E1, E2.
      rewrite !pattern2_barriers.
      - reflexivity.
      - discriminate.
      - repeat constructor; apply tsuki_barrier2.
      - destruct ws; discriminate.
      - apply Forall_app. split.
        + eapply Forall_impl; [|exact Hsp]. apply space_barrier2.
        + repeat constructor; apply tsuki_barrier2. }
    unfold heuristic2.
    destruct (String_match pattern2 (a ++ ws ++ tsuki :: post)) as [[i1 g1]|];
      destruct (String_match pattern2 (a ++ tsuki :: post)) as [[i2 g2]|];
      simpl in C; try discriminate; auto.
    inversion C; subst. reflexivity.
  - unfold heuristic3. apply for_entries_agree. intros name m Hin.
    destruct (monthNames_letters name m Hin) as [Hne Hlet].
    rewrite E1, E2.
    rewrite (toLowerCase_app a ((ws ++ [tsuki]) ++ post)).
    rewrite (toLowerCase_app (ws ++ [tsuki]) post).
    rewrite (toLowerCase_app a ([tsuki] ++ post)).
    rewrite (toLowerCase_app [tsuki] post).
    rewrite (toLowerCase_fixed _ Hfix).
    assert (Hfix1 : Forall (fun c => is_space c = true \/ c = tsuki) [tsuki])
      by (constructor; [right; reflexivity|constructor]).
    rewrite (toLowerCase_fixed _ Hfix1).
    assert (Hout : forall bs, Forall (fun c => is_space c = true \/ c = tsuki) bs ->
                   forall x, In x bs -> ~ In x name).
    { intros bs Hbs x Hx Hn. rewrite Forall_forall in Hbs.
      pose proof (proj2 (lower_unit_fixed x (Hbs x Hx))) as Hl.
      rewrite forallb_forall in Hlet. rewrite (Hlet x Hn) in Hl. discriminate. }
    rewrite !includes_barriers.
    + reflexivity.
    + exact Hne.
    + discriminate.
    + apply (Hout _ Hfix1).
    + exact Hne.
    + destruct ws; discriminate.
    + apply (Hout _ Hfix).
Qed.



(* ------------------------------------------------------------------ *)
(** * Properties of the list of uploaded files *)
(* ------------------------------------------------------------------ *)

Import Upload.

Lemma js_or_detected : forall f,
  js_or (detectMonthFromFilename f) (Num 1) =
  match detectMonthFromFilename f with
  | Some month => month
  | None => Num 1
  end.
Proof.
  intros f. destruct (detectMonthFromFilename f) as [y|] eqn:E; auto.
  destruct (detect_range f y E) as (m & -> & Hm). simpl.
  destruct (Z.eqb_spec m 0); auto; lia.
Qed.

Lemma addFiles_entries : forall files uploaded,
  addFiles uploaded files = uploaded ++ map entry_of files.
Proof.
  unfold addFiles.
  induction files as [|f files IH]; intros uploaded; simpl.
  - rewrite app_nil_r. reflexivity.
  - rewrite IH, js_or_detected, <- app_assoc. reflexivity.
Qed.

Lemma entry_of_in_range : forall f, month_in_range (selectedMonth (entry_of f)).
Proof.
  intros f. unfold entry_of; simpl.
  destruct (detectMonthFromFilename (name f)) as [y|] eqn:E.
  - exact (detect_range _ _ E).
  - exists 1. split; auto; lia.
Qed.

Lemma addFiles_in_range : forall uploaded files,
  selected_in_range uploaded -> selected_in_range (addFiles uploaded files).
Proof.
  intros uploaded files H. rewrite addFiles_entries.
  apply Forall_app. split; auto.
  apply Forall_forall. intros e He. apply in_map_iff in He.
  destruct He as (f & <- & _). apply entry_of_in_range.
Qed.

Lemma removeFile_in_range : forall uploaded index,
  selected_in_range uploaded -> selected_in_range (removeFile uploaded index).
Proof.
  unfold selected_in_range.
  induction uploaded as [|x rest IH]; intros [|i] H; simpl; auto;
    inversion H; subst; auto.
Qed.

Lemma dropdown_parse : forall month,
  In month dropdown_values -> month_in_range (parseInt month).
Proof.
  intros month H. unfold dropdown_values in H. cbn [map seq] in H.
  repeat (destruct H as [H|H];
          [subst; eexists; split; [vm_compute; reflexivity|lia]|]).
  destruct H.
Qed.

Lemma updateFileMonth_in_range : forall uploaded index month uploaded',
  selected_in_range uploaded -> In month dropdown_values ->
  updateFileMonth uploaded index month = Some uploaded' ->
  selected_in_range uploaded'.
Proof.
  unfold selected_in_range.
  induction uploaded as [|x rest IH]; intros [|i] month uploaded' H Hm E;
    simpl in E; try discriminate; inversion H; subst.
  - inversion E; subst. constructor; auto. simpl. apply dropdown_parse; auto.
  - destruct (updateFileMonth rest i month) as [rest'|] eqn:E'; try discriminate.
    inversion E; subst. constructor; auto. eapply IH; eauto.
Qed.

Lemma step_in_range : forall uploaded o,
  from_dropdown o -> selected_in_range uploaded -> selected_in_range (step uploaded o).
Proof.
  intros uploaded [files|index|index month|] Hd H; simpl.
  - apply addFiles_in_range; auto.
  - apply removeFile_in_range; auto.
  - destruct (updateFileMonth uploaded index month) as [u'|] eqn:E; auto.
    eapply updateFileMonth_in_range; eauto.
  - constructor.
Qed.

Lemma run_in_range : forall ops uploaded,
  Forall from_dropdown ops -> selected_in_range uploaded ->
  selected_in_range (fold_left step ops uploaded).
Proof.
  induction ops as [|o ops IH]; intros uploaded Hd H; simpl; auto.
  inversion Hd; subst. apply IH; auto. apply step_in_range; auto.
Qed.

(** C9: after any sequence of operations on the list, started from the
    empty list, in which every dropdown change passes one of the values
    "1" .. "12", every entry has selectedMonth in [1,12]. [addFiles]
    appends one entry per file, whose selectedMonth is the detected month
    when there is one and 1 when detection gave [null]; [updateFileMonth]
    with a dropdown value keeps the range. *)
Theorem C9_selected_month_in_range :
  (forall ops, Forall from_dropdown ops -> selected_in_range (run ops)) /\
  (forall uploaded files,
     addFiles uploaded files = uploaded ++ map entry_of files) /\
  (forall uploaded index month uploaded',
     selected_in_range uploaded -> In month dropdown_values ->
     updateFileMonth uploaded index month = Some uploaded' ->
     selected_in_range uploaded').
Proof.
  split; [|split].
  - intros ops H. apply run_in_range; auto. constructor.
  - intros. apply addFiles_entries.
  - apply updateFileMonth_in_range.
Qed.

Lemma C9_selected_month_in_range_witness :
  Forall from_dropdown
    [AddFiles [ {| name := js "12月分.pdf" |}; {| name := js "readme.pdf" |} ];
     UpdateFileMonth 1 (js "7"); RemoveFile 5; UpdateFileMonth 9 (js "12")] /\
  selected_in_range
    (run [AddFiles [ {| name := js "12月分.pdf" |}; {| name := js "readme.pdf" |} ];
          UpdateFileMonth 1 (js "7"); RemoveFile 5; UpdateFileMonth 9 (js "12")]) /\
  map selectedMonth
    (run [AddFiles [ {| name := js "12月分.pdf" |}; {| name := js "readme.pdf" |} ];
          UpdateFileMonth 1 (js "7"); RemoveFile 5; UpdateFileMonth 9 (js "12")])
  = [Num 11; Num 7].
Proof.
  assert (H : Forall from_dropdown
    [AddFiles [ {| name := js "12月分.pdf" |}; {| name := js "readme.pdf" |} ];
     UpdateFileMonth 1 (js "7"); RemoveFile 5; UpdateFileMonth 9 (js "12")]).
  { repeat constructor; simpl; tauto. }
  split; [exact H|]. split; [|reflexivity].
  exact (proj1 C9_selected_month_in_range _ H).
Defined.

(* ------------------------------------------------------------------ *)
(** * Properties of the rendering *)
(* ------------------------------------------------------------------ *)

Import Render.

Example render_sample :
  render_results
    [ {| file := {| name := js "a.pdf" |}; detectedMonth := None; selectedMonth := Num 4 |} ]
    (Some [ {| filename := js "a.pdf"; status := js "完了";
               fields := Some [(js "10月値", js "512"); (js "ocr_confidence", js "0.9");
                               (js "2月値", js "77")];
               ocr_text := Some (js "電気 kWh"); ocr_confidence := Some (9 # 10)%Q |};
            {| filename := js "b.pdf"; status := js "エラー"; fields := None;
               ocr_text := None; ocr_confidence := None |};
            {| filename := js "a.pdf"; status := js "kWh未検出"; fields := None;
               ocr_text := None; ocr_confidence := None |} ]) []
  = [ Row (js "2月") (js "77 kWh") BadgeSuccess None;
      Row (js "10月") (js "512 kWh") BadgeSuccess None;
      OcrDetails (9 # 10)%Q (js "電気 kWh");
      Row (js "-") (js "エラー") BadgeError (Some (js "b.pdf"));
      Row (js "4月") (js "エラー") BadgeError None ].
Proof. reflexivity. Qed.

Lemma addResultRow_appends : forall tbody result selectedMonth,
  addResultRow tbody result selectedMonth =
  tbody ++ addResultRow [] result selectedMonth.
Proof.
  intros tbody result sel. unfold addResultRow.
  destruct (fields result) as [[|kv fs]|].
  - destruct (truthy sel); [reflexivity|]. rewrite app_nil_r. reflexivity.
  - destruct (sort_keys _) as [|k ks].
    + destruct (truthy sel); [reflexivity|]. rewrite app_nil_r. reflexivity.
    + reflexivity.
  - destruct (truthy sel); [reflexivity|]. rewrite app_nil_r. reflexivity.
Qed.

Lemma render_item_appends : forall uploaded tbody item,
  render_item uploaded tbody item = tbody ++ rows_of uploaded item.
Proof.
  intros uploaded tbody item. unfold rows_of, render_item.
  destruct (status_ok item).
  - apply addResultRow_appends.
  - reflexivity.
Qed.

(** The loop never stops early: the table is the old body followed by
    the rows of every item, in order. *)
Lemma render_results_concat : forall uploaded items tbody,
  render_results uploaded (Some items) tbody =
  tbody ++ flat_map (rows_of uploaded) items.
Proof.
  intros uploaded items. unfold render_results.
  induction items as [|item items IH]; intros tbody; simpl.
  - rewrite app_nil_r. reflexivity.
  - rewrite IH, render_item_appends, <- app_assoc. reflexivity.
Qed.

Lemma insert_key_length : forall k sorted,
  length (insert_key k sorted) = S (length sorted).
Proof.
  induction sorted as [|e rest IH]; simpl; auto.
  destruct (sorts_after e k); simpl; auto.
Qed.

Lemma sort_keys_length : forall keys, length (sort_keys keys) = length keys.
Proof.
  intros keys. unfold sort_keys.
  assert (G : forall acc, length (fold_left (fun sorted k => insert_key k sorted) keys acc)
                          = (length acc + length keys)%nat).
  { induction keys as [|k keys IH]; intros acc; simpl; [lia|].
    rewrite IH, insert_key_length. lia. }
  rewrite G. reflexivity.
Qed.

Lemma str_eqb_eq : forall a b, str_eqb a b = true <-> a = b.
Proof.
  induction a as [|x a IH]; intros [|y b]; simpl; split; intros H;
    try discriminate; auto.
  - apply andb_true_iff in H. destruct H as [Hx Ha].
    apply Z.eqb_eq in Hx. apply IH in Ha. congruence.
  - inversion H; subst. rewrite Z.eqb_refl. simpl. apply IH. reflexivity.
Qed.

Lemma month_keys_nonempty : forall (fs : list (jsstring * jsstring)) key v,
  In (key, v) fs -> str_eqb key (js "ocr_confidence") = false ->
  sort_keys (filter (fun key => negb (str_eqb key (js "ocr_confidence")))
                    (map fst fs)) <> [].
Proof.
  intros fs key v Hin Hk.
  set (ks := filter (fun key => negb (str_eqb key (js "ocr_confidence")))
                    (map (@fst jsstring jsstring) fs)).
  intros E.
  assert (Hf : In key ks).
  { apply filter_In. split.
    - apply in_map_iff. exists (key, v). auto.
    - rewrite Hk. reflexivity. }
  pose proof (sort_keys_length ks) as L.
  rewrite E in L. simpl in L.
  destruct ks; [destruct Hf|discriminate].
Qed.

(** The selected month the loop finds for an item that names an
    uploaded file is truthy when the list keeps its months in [1,12]. *)
Lemma found_month_truthy : forall uploaded item,
  selected_in_range uploaded -> names_uploaded uploaded item ->
  truthy (match find (fun f => str_eqb (name (file f)) (filename item)) uploaded with
          | Some u => Some (selectedMonth u)
          | None => None
          end) = true.
Proof.
  intros uploaded item Hr (u & Hin & Hname).
  destruct (find _ uploaded) as [u'|] eqn:E.
  - apply find_some in E. destruct E as [Hin' _].
    unfold selected_in_range in Hr. rewrite Forall_forall in Hr.
    destruct (Hr u' Hin') as (m & -> & Hm). simpl.
    destruct (Z.eqb_spec m 0); auto; lia.
  - exfalso. pose proof (find_none _ _ E u Hin) as Hn. simpl in Hn.
    rewrite Hname in Hn.
    rewrite (proj2 (str_eqb_eq (filename item) (filename item)) eq_refl) in Hn.
    discriminate.
Qed.

(** C8, as the specification states it, does not hold for every item of
    the response: an item with status 完了 that carries no fields and
    whose filename is not that of an uploaded file adds no row at all. *)
Lemma C8_item_without_row :
  In {| filename := js "b.pdf"; status := js "完了"; fields := None;
        ocr_text := None; ocr_confidence := None |}
     [ {| filename := js "b.pdf"; status := js "完了"; fields := None;
          ocr_text := None; ocr_confidence := None |} ] /\
  render_results
    [ {| file := {| name := js "a.pdf" |}; detectedMonth := None;
         selectedMonth := Num 1 |} ]
    (Some [ {| filename := js "b.pdf"; status := js "完了"; fields := None;
               ocr_text := None; ocr_confidence := None |} ]) [] = [].
Proof. split; [left; reflexivity|reflexivity]. Qed.

(** C8, amended: the loop handles every item and never stops early (the
    table is the rows of the items, in order); an item whose status is
    neither 完了 nor kWh未検出 adds exactly one row, a failed one that
    carries its filename; an item with one of these two statuses adds at
    least one row when it carries a month field or names an uploaded file
    (the list keeping its months in [1,12]), and when it names an uploaded
    file and has no fields, that row is a failed row. *)
Theorem C8_rows_of_results :
  (forall uploaded items tbody,
     render_results uploaded (Some items) tbody =
     tbody ++ flat_map (rows_of uploaded) items) /\
  (forall uploaded item,
     status_ok item = false ->
     rows_of uploaded item =
     [Row (js "-") (js "エラー") BadgeError (Some (filename item))]) /\
  (forall uploaded item,
     status_ok item = true ->
     has_month_field item \/
     (selected_in_range uploaded /\ names_uploaded uploaded item) ->
     rows_of uploaded item <> []) /\
  (forall uploaded item,
     status_ok item = true ->
     selected_in_range uploaded -> names_uploaded uploaded item ->
     fields item = None \/ fields item = Some [] ->
     exists r, rows_of uploaded item = [r] /\ is_failed_row r).
Proof.
  split; [exact render_results_concat|]. split; [|split].
  - intros uploaded item Hs. unfold rows_of, render_item. rewrite Hs. reflexivity.
  - intros uploaded item Hs H. unfold rows_of, render_item. rewrite Hs.
    unfold addResultRow. destruct H as [(fs & key & v & Hf & Hin & Hk)|[Hr Hn]].
    + rewrite Hf. destruct fs as [|kv fs']; [destruct Hin|].
      pose proof (month_keys_nonempty (kv :: fs') key v Hin Hk) as Hne.
      destruct (sort_keys _) as [|k ks]; [congruence|]. simpl. discriminate.
    + rewrite (found_month_truthy uploaded item Hr Hn).
      destruct (fields item) as [[|kv fs]|]; simpl; try discriminate.
      destruct (sort_keys _) as [|k ks]; simpl; discriminate.
  - intros uploaded item Hs Hr Hn Hf. unfold rows_of, render_item. rewrite Hs.
    unfold addResultRow. rewrite (found_month_truthy uploaded item Hr Hn).
    destruct Hf as [-> | ->]; simpl; eexists; split; try reflexivity;
      unfold is_failed_row; eauto.
Qed.

Lemma C8_rows_of_results_witness :
  status_ok {| filename := js "a.pdf"; status := js "失敗"; fields := None;
               ocr_text := None; ocr_confidence := None |} = false /\
  rows_of [] {| filename := js "a.pdf"; status := js "失敗"; fields := None;
                ocr_text := None; ocr_confidence := None |} =
  [Row (js "-") (js "エラー") BadgeError (Some (js "a.pdf"))] /\
  status_ok {| filename := js "a.pdf"; status := js "kWh未検出"; fields := Some [];
               ocr_text := None; ocr_confidence := None |} = true /\
  selected_in_range
    [ {| file := {| name := js "a.pdf" |}; detectedMonth := None;
         selectedMonth := Num 4 |} ] /\
  names_uploaded
    [ {| file := {| name := js "a.pdf" |}; detectedMonth := None;
         selectedMonth := Num 4 |} ]
    {| filename := js "a.pdf"; status := js "kWh未検出"; fields := Some [];
       ocr_text := None; ocr_confidence := None |} /\
  rows_of
    [ {| file := {| name := js "a.pdf" |}; detectedMonth := None;
         selectedMonth := Num 4 |} ]
    {| filename := js "a.pdf"; status := js "kWh未検出"; fields := Some [];
       ocr_text := None; ocr_confidence := None |} <> [].
Proof.
  assert (H1 : status_ok {| filename := js "a.pdf"; status := js "失敗"; fields := None;
               ocr_text := None; ocr_confidence := None |} = false) by reflexivity.
  assert (H2 : status_ok {| filename := js "a.pdf"; status := js "kWh未検出";
               fields := Some []; ocr_text := None; ocr_confidence := None |} = true)
    by reflexivity.
  assert (H3 : selected_in_range
    [ {| file := {| name := js "a.pdf" |}; detectedMonth := None;
         selectedMonth := Num 4 |} ]).
  { repeat constructor. exists 4. simpl. split; [reflexivity|lia]. }
  assert (H4 : names_uploaded
    [ {| file := {| name := js "a.pdf" |}; detectedMonth := None;
         selectedMonth := Num 4 |} ]
    {| filename := js "a.pdf"; status := js "kWh未検出"; fields := Some [];
       ocr_text := None; ocr_confidence := None |}).
  { eexists. split; [left; reflexivity|reflexivity]. }
  split; [exact H1|].
  split; [exact (proj1 (proj2 C8_rows_of_results) [] _ H1)|].
  split; [exact H2|]. split; [exact H3|]. split; [exact H4|].
  exact (proj1 (proj2 (proj2 C8_rows_of_results)) _ _ H2 (or_intror (conj H3 H4))).
Defined.

(* ------------------------------------------------------------------ *)
(** * Further properties of the detector *)
(* ------------------------------------------------------------------ *)

Lemma substring_trans : forall a b c,
  substring a b -> substring b c -> substring a c.
Proof.
  intros a b c (p1 & q1 & ->) (p2 & q2 & ->).
  exists (p2 ++ p1), (q1 ++ q2). rewrite <- !app_assoc. reflexivity.
Qed.

Lemma includes_longer_false : forall l short long,
  substring short long -> includes l short = false -> includes l long = false.
Proof.
  intros l short long Hs Hf.
  destruct (includes l long) eqn:E; auto.
  apply includes_iff in E.
  pose proof (proj2 (includes_iff l short) (substring_trans _ _ _ Hs E)).
  congruence.
Qed.

(** One abbreviation and its full name: when the first does not occur,
    neither does the second. *)
Ltac abbreviation_step l short long :=
  let E := fresh "E" in
  let S := fresh "S" in
  destruct (includes l short) eqn:E; [reflexivity|];
  assert (S : substring short long)
    by (exists [], (skipn (length short) long); reflexivity);
  rewrite (includes_longer_false l short long S E); clear S.

(** The loop over the table gives what a loop over the abbreviations
    alone would give. *)
Lemma for_entries_abbreviations : forall l,
  for_entries monthNames l = for_entries abbreviations l.
Proof.
  intros l. unfold monthNames, abbreviations. cbn [for_entries].
  abbreviation_step l (js "jan") (js "january").
  abbreviation_step l (js "feb") (js "february").
  abbreviation_step l (js "mar") (js "march").
  abbreviation_step l (js "apr") (js "april").
  destruct (includes l (js "may")) eqn:?; [reflexivity|].
  abbreviation_step l (js "jun") (js "june").
  abbreviation_step l (js "jul") (js "july").
  abbreviation_step l (js "aug") (js "august").
  abbreviation_step l (js "sep") (js "september").
  abbreviation_step l (js "oct") (js "october").
  abbreviation_step l (js "nov") (js "november").
  abbreviation_step l (js "dec") (js "december").
  reflexivity.
Qed.

(** X1: the full month names of the table never decide anything: with
    the table cut down to the twelve three-letter names the detector
    returns the same value for every filename. *)
Theorem X1_full_names_redundant : forall f,
  detectMonthFromFilename f =
  match heuristic1 f with
  | Some month => Some month
  | None =>
      match heuristic2 f with
      | Some month => Some month
      | None => for_entries abbreviations (toLowerCase f)
      end
  end.
Proof.
  intros f. rewrite detect_blocks. unfold heuristic3.
  rewrite for_entries_abbreviations. reflexivity.
Qed.

Lemma monthNames_ascending : months_ascending monthNames.
Proof.
  unfold months_ascending, monthNames.
  repeat (apply SSorted_cons; [|repeat (apply Forall_cons; [simpl; lia|]); apply Forall_nil]).
  apply SSorted_nil.
Qed.

Lemma for_entries_least : forall entries l,
  months_ascending entries ->
  match for_entries entries l with
  | Some (Num m) =>
      (exists name, In (name, m) entries /\ includes l name = true) /\
      (forall name' m', In (name', m') entries -> includes l name' = true -> m <= m')
  | Some NaN => False
  | None => forall name m, In (name, m) entries -> includes l name = false
  end.
Proof.
  induction entries as [|[name m] rest IH]; intros l Hs; simpl.
  - intros ? ? [].
  - inversion Hs as [|? ? Hrest Hall]; subst.
    destruct (includes l name) eqn:E.
    + split.
      * exists name. auto.
      * intros name' m' [Heq|Hin] Hi.
        -- inversion Heq; subst. lia.
        -- rewrite Forall_forall in Hall. apply (Hall (name', m') Hin).
    + specialize (IH l Hrest).
      destruct (for_entries rest l) as [[m0|]|].
      * destruct IH as [(n0 & Hin0 & Hi0) Hleast]. split.
        -- exists n0. auto.
        -- intros name' m' [Heq|Hin] Hi.
           ++ inversion Heq; subst. congruence.
           ++ eapply Hleast; eauto.
      * exact IH.
      * intros name' m' [Heq|Hin].
        -- inversion Heq; subst. exact E.
        -- eapply IH; eauto.
Qed.

(** X2: the month-name block returns the earliest month of the year
    among the names that occur in the lower-cased filename, and [null]
    exactly when none occurs. *)
Theorem X2_earliest_named_month : forall f,
  match heuristic3 f with
  | Some (Num m) =>
      contains_month_name f m /\
      (forall m', contains_month_name f m' -> m <= m')
  | Some NaN => False
  | None => forall m, ~ contains_month_name f m
  end.
Proof.
  intros f. unfold heuristic3.
  pose proof (for_entries_least monthNames (toLowerCase f) monthNames_ascending) as H.
  destruct (for_entries monthNames (toLowerCase f)) as [[m|]|].
  - destruct H as [(name & Hin & Hi) Hleast]. split.
    + exists name. split; auto. apply includes_iff; auto.
    + intros m' (name' & Hin' & Hs'). apply (Hleast name' m' Hin').
      apply includes_iff; auto.
  - exact H.
  - intros m (name & Hin & Hs). apply includes_iff in Hs.
    rewrite (H name m Hin) in Hs. discriminate.
Qed.

(** X3: when the first match of pattern 1 captures a numeral that is 0
    or at least 14, the first block returns nothing and the result is the
    one of the two later blocks. *)
Theorem X3_rejected_numeral_falls_through : forall pre ds ws post,
  forallb is_digit_any ds = true -> (1 <= length ds <= 2)%nat ->
  forallb is_space ws = true ->
  (forall i, (i < length pre)%nat ->
     ~ occurs_at pattern1 (pre ++ ds ++ ws ++ tsuki :: post) i) ->
  numeral ds = 0 \/ 14 <= numeral ds ->
  detectMonthFromFilename (pre ++ ds ++ ws ++ tsuki :: post) =
  match heuristic2 (pre ++ ds ++ ws ++ tsuki :: post) with
  | Some month => Some month
  | None => heuristic3 (pre ++ ds ++ ws ++ tsuki :: post)
  end.
Proof.
  intros pre ds ws post Hds Hlen Hws Hfirst Hn.
  rewrite detect_blocks.
  destruct (heuristic1_first_token_outcome pre ds ws post Hds Hlen Hws Hfirst)
    as (Hrej & _ & Hb).
  rewrite Hrej by lia. reflexivity.
Qed.

Lemma X3_rejected_numeral_falls_through_witness :
  forallb is_digit_any (js "20") = true /\
  (1 <= length (js "20") <= 2)%nat /\
  forallb is_space [32] = true /\
  (forall i, (i < length (js "第"))%nat ->
     ~ occurs_at pattern1 (js "第" ++ js "20" ++ [32] ++ tsuki :: js "_03_.pdf") i) /\
  (numeral (js "20") = 0 \/ 14 <= numeral (js "20")) /\
  detectMonthFromFilename (js "第" ++ js "20" ++ [32] ++ tsuki :: js "_03_.pdf") =
  Some (Num 2).
Proof.
  assert (H1 : forallb is_digit_any (js "20") = true) by reflexivity.
  assert (H2 : (1 <= length (js "20") <= 2)%nat) by (simpl; lia).
  assert (H3 : forallb is_space [32] = true) by reflexivity.
  assert (H4 : forall i, (i < length (js "第"))%nat ->
     ~ occurs_at pattern1 (js "第" ++ js "20" ++ [32] ++ tsuki :: js "_03_.pdf") i).
  { apply no_match_before_correct. vm_compute. reflexivity. }
  assert (H5 : numeral (js "20") = 0 \/ 14 <= numeral (js "20")).
  { right. vm_compute. discriminate. }
  split; [exact H1|]. split; [exact H2|]. split; [exact H3|].
  split; [exact H4|]. split; [exact H5|].
  rewrite (X3_rejected_numeral_falls_through (js "第") (js "20") [32]
             (js "_03_.pdf") H1 H2 H3 H4 H5).
  reflexivity.
Defined.

Lemma no_tsuki_no_pattern1 : forall f,
  ~ In tsuki f -> String_match pattern1 f = None.
Proof.
  intros f Hf. apply String_match_None. intros i Ho.
  apply occurs_at_pattern1 in Ho.
  destruct Ho as (pre & ds & ws & post & -> & _).
  apply Hf. rewrite !in_app_iff. right. right. right. left. reflexivity.
Qed.

Lemma no_delimiter_no_pattern2 : forall f,
  (forall c, In c f -> is_open_delim c = false) -> String_match pattern2 f = None.
Proof.
  intros f Hf. apply String_match_None. intros i Ho.
  apply occurs_at_pattern2 in Ho.
  destruct Ho as (pre & o & d1 & d2 & cl & post & -> & _ & Ho & _).
  rewrite (Hf o) in Ho; [discriminate|].
  rewrite in_app_iff. right. left. reflexivity.
Qed.

(** X4: a filename without the character 月 is never decided by pattern
    1, and a filename with neither [_] nor [-] is never decided by pattern
    2 (a number between dots, as in "2025.07.pdf", is not read); with
    neither, the result is the one of the month names alone. *)
Theorem X4_patterns_need_their_marks :
  (forall f, ~ In tsuki f -> heuristic1 f = None) /\
  (forall f, (forall c, In c f -> is_open_delim c = false) -> heuristic2 f = None) /\
  (forall f, ~ In tsuki f -> (forall c, In c f -> is_open_delim c = false) ->
             detectMonthFromFilename f = heuristic3 f).
Proof.
  assert (A : forall f, ~ In tsuki f -> heuristic1 f = None).
  { intros f Hf. unfold heuristic1. rewrite (no_tsuki_no_pattern1 f Hf). reflexivity. }
  assert (B : forall f, (forall c, In c f -> is_open_delim c = false) ->
                        heuristic2 f = None).
  { intros f Hf. unfold heuristic2. rewrite (no_delimiter_no_pattern2 f Hf).
    reflexivity. }
  split; [exact A|]. split; [exact B|].
  intros f H1 H2. rewrite detect_blocks, (A f H1), (B f H2). reflexivity.
Qed.

Lemma X4_patterns_need_their_marks_witness :
  ~ In tsuki (js "Aug.2025.07.pdf") /\
  (forall c, In c (js "Aug.2025.07.pdf") -> is_open_delim c = false) /\
  detectMonthFromFilename (js "Aug.2025.07.pdf") = Some (Num 8).
Proof.
  assert (H1 : ~ In tsuki (js "Aug.2025.07.pdf")).
  { intros H. vm_compute in H.
    repeat (destruct H as [H|H]; [discriminate|]). exact H. }
  assert (H2 : forall c, In c (js "Aug.2025.07.pdf") -> is_open_delim c = false).
  { intros c H. vm_compute in H.
    repeat (destruct H as [H|H]; [subst; reflexivity|]). destruct H. }
  split; [exact H1|]. split; [exact H2|].
  rewrite (proj2 (proj2 X4_patterns_need_their_marks) _ H1 H2). reflexivity.
Defined.

(* ------------------------------------------------------------------ *)
(** * Further properties of the list of uploaded files *)
(* ------------------------------------------------------------------ *)

(** X5: [addFiles] leaves the entries already listed as they are and in
    place, appends the new files in their order, and adding two batches
    one after the other is adding them at once. *)
Theorem X5_addFiles_keeps_listed : forall uploaded a b,
  firstn (length uploaded) (addFiles uploaded a) = uploaded /\
  map file (addFiles uploaded a) = map file uploaded ++ a /\
  addFiles (addFiles uploaded a) b = addFiles uploaded (a ++ b).
Proof.
  intros uploaded a b. rewrite !addFiles_entries. repeat split.
  - rewrite firstn_app, Nat.sub_diag, firstn_all. simpl. apply app_nil_r.
  - rewrite map_app, map_map. simpl. rewrite map_id. reflexivity.
  - rewrite map_app, app_assoc. reflexivity.
Qed.

Lemma removeFile_splice : forall uploaded index,
  removeFile uploaded index = firstn index uploaded ++ skipn (S index) uploaded.
Proof.
  induction uploaded as [|x rest IH]; intros [|i]; simpl; auto.
  - rewrite IH. reflexivity.
Qed.

(** X6: [removeFile] at an index of the list removes that one entry and
    keeps the others in order; at an index past the end it removes
    nothing. *)
Theorem X6_removeFile_bounds : forall uploaded index,
  ((index < length uploaded)%nat ->
   removeFile uploaded index = firstn index uploaded ++ skipn (S index) uploaded /\
   S (length (removeFile uploaded index)) = length uploaded) /\
  ((length uploaded <= index)%nat -> removeFile uploaded index = uploaded).
Proof.
  intros uploaded index. rewrite removeFile_splice. split.
  - intros H. split; auto.
    rewrite length_app, firstn_length_le, length_skipn by lia. lia.
  - intros H. rewrite firstn_all2, skipn_all2 by lia. apply app_nil_r.
Qed.

Lemma X6_removeFile_bounds_witness :
  (1 < length (addFiles [] [ {| name := js "a.pdf" |}; {| name := js "b.pdf" |};
                             {| name := js "c.pdf" |} ]))%nat /\
  map (fun e => name (file e))
      (removeFile (addFiles [] [ {| name := js "a.pdf" |}; {| name := js "b.pdf" |};
                                 {| name := js "c.pdf" |} ]) 1)
  = [js "a.pdf"; js "c.pdf"].
Proof.
  assert (H : (1 < length (addFiles [] [ {| name := js "a.pdf" |};
                 {| name := js "b.pdf" |}; {| name := js "c.pdf" |} ]))%nat)
    by (simpl; lia).
  split; [exact H|].
  rewrite (proj1 (proj1 (X6_removeFile_bounds _ 1%nat) H)). reflexivity.
Defined.

Lemma updateFileMonth_spec : forall uploaded index month,
  match updateFileMonth uploaded index month with
  | Some uploaded' =>
      (index < length uploaded)%nat /\
      exists before x after,
        uploaded = before ++ x :: after /\ length before = index /\
        uploaded' = before ++ {| file := file x;
                                 detectedMonth := detectedMonth x;
                                 selectedMonth := parseInt month |} :: after
  | None => (length uploaded <= index)%nat
  end.
Proof.
  induction uploaded as [|x rest IH]; intros [|i] month; simpl; try lia.
  - split; [lia|]. exists [], x, rest. auto.
  - specialize (IH i month).
    destruct (updateFileMonth rest i month) as [rest'|].
    + destruct IH as (Hi & before & y & after & -> & Hlen & ->).
      split; [lia|]. exists (x :: before), y, after. simpl. auto.
    + lia.
Qed.



Lemma parseInt_template_number : forall m,
  0 <= m < 100 -> parseInt (template_number m) = Num m.
Proof.
  intros m Hm. unfold template_number.
  destruct (Z.ltb_spec m 10).
  - rewrite parseInt_ascii_digits.
    + unfold digits_value. cbn [fold_left]. unfold digit_value.
      assert (is_ascii_digit (48 + m) = true) as -> by class_facts.
      f_equal. lia.
    + discriminate.
    + cbn [forallb]. rewrite andb_true_r. class_facts.
  - assert (H1 : 1 <= m / 10 <= 9).
    { split.
      - apply Z.div_le_lower_bound; lia.
      - assert (m / 10 < 10) by (apply Z.div_lt_upper_bound; lia). lia. }
    assert (H2 : 0 <= m mod 10 < 10) by (apply Z.mod_pos_bound; lia).
    rewrite parseInt_ascii_digits.
    + unfold digits_value. cbn [fold_left]. unfold digit_value.
      assert (is_ascii_digit (48 + m / 10) = true) as -> by class_facts.
      assert (is_ascii_digit (48 + m mod 10) = true) as -> by class_facts.
      f_equal. pose proof (Z.div_mod m 10 ltac:(lia)). lia.
    + discriminate.
    + cbn [forallb]. rewrite andb_true_r. apply andb_true_iff. split; class_facts.
Qed.

(** X8: the value the dropdown prints for month m, passed back through
    [updateFileMonth], is read as m again: after the call the entry at
    the index has selectedMonth m. *)
Theorem X8_dropdown_round_trip : forall uploaded index m,
  1 <= m <= 12 -> (index < length uploaded)%nat ->
  In (template_number m) dropdown_values /\
  exists uploaded',
    updateFileMonth uploaded index (template_number m) = Some uploaded' /\
    option_map selectedMonth (nth_error uploaded' index) = Some (Num m).
Proof.
  intros uploaded index m Hm Hi. split.
  - unfold dropdown_values. apply in_map_iff.
    exists (Z.to_nat (m - 1)). split.
    + f_equal. lia.
    + apply in_seq. lia.
  - pose proof (updateFileMonth_spec uploaded index (template_number m)) as H.
    destruct (updateFileMonth uploaded index (template_number m)) as [u'|]; [|lia].
    destruct H as (_ & before & x & after & -> & Hlen & ->).
    eexists; split; [reflexivity|].
    rewrite nth_error_app2 by lia. rewrite Hlen, Nat.sub_diag. simpl.
    rewrite parseInt_template_number by lia. reflexivity.
Qed.

Lemma X8_dropdown_round_trip_witness :
  1 <= 11 <= 12 /\
  (0 < length (addFiles [] [ {| name := js "x.pdf" |} ]))%nat /\
  exists uploaded',
    updateFileMonth (addFiles [] [ {| name := js "x.pdf" |} ]) 0 (template_number 11)
      = Some uploaded' /\
    option_map selectedMonth (nth_error uploaded' 0) = Some (Num 11).
Proof.
  assert (H1 : 1 <= 11 <= 12) by lia.
  assert (H2 : (0 < length (addFiles [] [ {| name := js "x.pdf" |} ]))%nat)
    by (simpl; lia).
  split; [exact H1|]. split; [exact H2|].
  exact (proj2 (X8_dropdown_round_trip _ 0%nat 11 H1 H2)).
Defined.

Lemma addFiles_detected : forall uploaded files,
  detected_matches_name uploaded -> detected_matches_name (addFiles uploaded files).
Proof.
  intros uploaded files H. rewrite addFiles_entries.
  apply Forall_app. split; auto.
  apply Forall_forall. intros e He. apply in_map_iff in He.
  destruct He as (f & <- & _). reflexivity.
Qed.

Lemma removeFile_detected : forall uploaded index,
  detected_matches_name uploaded -> detected_matches_name (removeFile uploaded index).
Proof.
  intros uploaded index H. rewrite removeFile_splice.
  unfold detected_matches_name in *. apply Forall_app. split.
  - rewrite <- (firstn_skipn index uploaded) in H. apply Forall_app in H. tauto.
  - rewrite <- (firstn_skipn (S index) uploaded) in H. apply Forall_app in H. tauto.
Qed.

Lemma updateFileMonth_detected : forall uploaded index month uploaded',
  detected_matches_name uploaded ->
  updateFileMonth uploaded index month = Some uploaded' ->
  detected_matches_name uploaded'.
Proof.
  intros uploaded index month uploaded' H E.
  pose proof (updateFileMonth_spec uploaded index month) as S.
  rewrite E in S. destruct S as (_ & before & x & after & -> & _ & ->).
  unfold detected_matches_name in *.
  apply Forall_app in H. destruct H as [Hb Ha].
  inversion Ha; subst. apply Forall_app. split; auto.
Qed.

Lemma step_detected : forall uploaded o,
  detected_matches_name uploaded -> detected_matches_name (step uploaded o).
Proof.
  intros uploaded [files|index|index month|] H; simpl.
  - apply addFiles_detected; auto.
  - apply removeFile_detected; auto.
  - destruct (updateFileMonth uploaded index month) as [u'|] eqn:E; auto.
    eapply updateFileMonth_detected; eauto.
  - constructor.
Qed.

(** X9: whatever the operations on the list, and whatever month strings
    they pass, the detectedMonth of every entry stays the detector's
    answer for the name of its file: no operation rewrites it. *)
Theorem X9_detected_month_is_kept : forall ops,
  detected_matches_name (run ops).
Proof.
  intros ops. unfold run.
  assert (G : forall uploaded, detected_matches_name uploaded ->
                               detected_matches_name (fold_left step ops uploaded)).
  { induction ops as [|o ops IH]; intros uploaded H; simpl; auto.
    apply IH. apply step_detected; auto. }
  apply G. constructor.
Qed.

(* ------------------------------------------------------------------ *)
(** * Further properties of the rendering *)
(* ------------------------------------------------------------------ *)

Lemma replace_char_app : forall c rep a b,
  replace_char c rep (a ++ b) = replace_char c rep a ++ replace_char c rep b.
Proof. intros. unfold replace_char. apply flat_map_app. Qed.

Lemma replace_char_other : forall c rep x,
  (x =? c) = false -> replace_char c rep [x] = [x].
Proof. intros c rep x H. unfold replace_char. simpl. rewrite H. reflexivity. Qed.

(** The three passes, one after the other, are one pass with
    [entity_of]. *)
Lemma escape_is_entity_map : forall text,
  replace_char 62 (js "&gt;")
    (replace_char 60 (js "&lt;") (replace_char 38 (js "&amp;") text)) =
  flat_map entity_of text.
Proof.
  induction text as [|x text IH]; [reflexivity|].
  change (x :: text) with ([x] ++ text).
  rewrite !replace_char_app, IH. cbn [flat_map app]. f_equal.
  unfold entity_of.
  destruct (Z.eqb_spec x 38) as [->|H38]; [reflexivity|].
  rewrite (replace_char_other 38 _ x) by (apply Z.eqb_neq; auto).
  destruct (Z.eqb_spec x 60) as [->|H60]; [reflexivity|].
  rewrite (replace_char_other 60 _ x) by (apply Z.eqb_neq; auto).
  destruct (Z.eqb_spec x 62) as [->|H62]; [reflexivity|].
  rewrite (replace_char_other 62 _ x) by (apply Z.eqb_neq; auto).
  reflexivity.
Qed.

Lemma entity_map_no_brackets : forall text,
  ~ In 60 (flat_map entity_of text) /\ ~ In 62 (flat_map entity_of text).
Proof.
  induction text as [|x text [IH1 IH2]]; simpl; [tauto|].
  rewrite !in_app_iff. unfold entity_of.
  destruct (Z.eqb_spec x 38); [|destruct (Z.eqb_spec x 60);
    [|destruct (Z.eqb_spec x 62)]]; simpl; split; intros [H|H]; auto;
    repeat (destruct H as [H|H]; [try discriminate; try lia|]); auto.
Qed.



Lemma filter_spaces_nil : forall text,
  forallb is_space text = true -> filter (fun c => negb (is_space c)) text = [].
Proof.
  induction text as [|c text IH]; simpl; auto. intros H.
  apply andb_true_iff in H. destruct H as [-> H]. simpl. auto.
Qed.



Lemma month_keys_rows : forall uploaded item fs,
  status_ok item = true -> fields item = Some fs -> month_keys fs <> [] ->
  rows_of uploaded item =
  map (fun key => Row (remove_first (js "値") key)
                      (field_value fs key ++ js " kWh") BadgeSuccess None)
      (sort_keys (month_keys fs))
  ++ opt_row (ocrDetailsHtml item).
Proof.
  intros uploaded item fs Hs Hf Hk.
  unfold rows_of, render_item. rewrite Hs. unfold addResultRow. rewrite Hf.
  destruct fs as [|kv fs']; [exfalso; apply Hk; reflexivity|].
  fold (month_keys (kv :: fs')).
  pose proof (sort_keys_length (month_keys (kv :: fs'))) as L.
  destruct (sort_keys (month_keys (kv :: fs'))) as [|k ks] eqn:E.
  - destruct (month_keys (kv :: fs')); [congruence|discriminate].
  - reflexivity.
Qed.

(** X12: for an item with status 完了 or kWh未検出 that carries month
    fields, the table gets one success row per month key and then the OCR
    row if there is one, and nothing else; these rows do not depend on the
    list of uploaded files, so the month the user selected for the file
    is not shown. *)
Theorem X12_rows_of_month_fields : forall uploaded item fs,
  status_ok item = true -> fields item = Some fs -> month_keys fs <> [] ->
  (forall uploaded', rows_of uploaded' item = rows_of uploaded item) /\
  exists data,
    rows_of uploaded item = data ++ opt_row (ocrDetailsHtml item) /\
    length data = length (month_keys fs) /\
    Forall is_success_row data.
Proof.
  intros uploaded item fs Hs Hf Hk. split.
  - intros uploaded'. rewrite !(month_keys_rows _ item fs Hs Hf Hk). reflexivity.
  - rewrite (month_keys_rows uploaded item fs Hs Hf Hk).
    eexists. split; [reflexivity|]. split.
    + rewrite length_map. apply sort_keys_length.
    + apply Forall_forall. intros r Hr. apply in_map_iff in Hr.
      destruct Hr as (key & <- & _). unfold is_success_row. eauto.
Qed.

Lemma X12_rows_of_month_fields_witness :
  status_ok {| filename := js "a.pdf"; status := js "完了";
               fields := Some [(js "3月値", js "120"); (js "ocr_confidence", js "0.5")];
               ocr_text := None; ocr_confidence := None |} = true /\
  month_keys [(js "3月値", js "120"); (js "ocr_confidence", js "0.5")] <> [] /\
  rows_of [ {| file := {| name := js "a.pdf" |}; detectedMonth := None;
               selectedMonth := Num 7 |} ]
          {| filename := js "a.pdf"; status := js "完了";
             fields := Some [(js "3月値", js "120"); (js "ocr_confidence", js "0.5")];
             ocr_text := None; ocr_confidence := None |} =
  rows_of []
          {| filename := js "a.pdf"; status := js "完了";
             fields := Some [(js "3月値", js "120"); (js "ocr_confidence", js "0.5")];
             ocr_text := None; ocr_confidence := None |}.
Proof.
  assert (H1 : status_ok {| filename := js "a.pdf"; status := js "完了";
               fields := Some [(js "3月値", js "120"); (js "ocr_confidence", js "0.5")];
               ocr_text := None; ocr_confidence := None |} = true) by reflexivity.
  assert (H2 : month_keys [(js "3月値", js "120"); (js "ocr_confidence", js "0.5")] <> [])
    by (vm_compute; discriminate).
  split; [exact H1|]. split; [exact H2|].
  exact (proj1 (X12_rows_of_month_fields [] _ _ H1 eq_refl H2) _).
Defined.

Lemma insert_key_perm : forall k sorted,
  Permutation (insert_key k sorted) (k :: sorted).
Proof.
  induction sorted as [|e rest IH]; simpl; auto.
  destruct (sorts_after e k); auto.
  apply Permutation_trans with (e :: k :: rest); [|apply perm_swap].
  apply perm_skip. exact IH.
Qed.

Lemma sort_keys_perm : forall keys, Permutation (sort_keys keys) keys.
Proof.
  intros keys. unfold sort_keys.
  assert (G : forall acc,
            Permutation (fold_left (fun sorted k => insert_key k sorted) keys acc)
                        (keys ++ acc)).
  { induction keys as [|k keys IH]; intros acc; simpl; auto.
    apply Permutation_trans with (keys ++ insert_key k acc); [apply IH|].
    apply Permutation_trans with (keys ++ k :: acc).
    - apply Permutation_app_head. apply insert_key_perm.
    - apply Permutation_sym. apply Permutation_middle. }
  specialize (G []). rewrite app_nil_r in G. exact G.
Qed.

Lemma sorts_after_numeric : forall a b,
  numeric_key a -> numeric_key b ->
  sorts_after a b = (key_number b <? key_number a).
Proof.
  intros a b [x Ha] [y Hb]. unfold sorts_after, key_number.
  unfold key_month in *. rewrite Ha, Hb.
  destruct (Z.ltb_spec 0 (x - y)); destruct (Z.ltb_spec y x); auto; lia.
Qed.

Lemma insert_key_sorted : forall k sorted,
  numeric_key k -> Forall numeric_key sorted ->
  StronglySorted (fun a b => key_number a <= key_number b) sorted ->
  StronglySorted (fun a b => key_number a <= key_number b) (insert_key k sorted).
Proof.
  induction sorted as [|e rest IH]; intros Hk Hn Hs; simpl.
  - repeat constructor.
  - inversion Hn as [|? ? He Hrest]; subst.
    inversion Hs as [|? ? Hsr Hall]; subst.
    rewrite (sorts_after_numeric e k He Hk).
    destruct (Z.ltb_spec (key_number k) (key_number e)).
    + constructor; auto. constructor; [lia|].
      eapply Forall_impl; [|exact Hall]. simpl. intros; lia.
    + constructor; auto.
      apply (Permutation_Forall (Permutation_sym (insert_key_perm k rest))).
      constructor; auto.
Qed.

Lemma sort_keys_sorted : forall keys,
  Forall numeric_key keys ->
  StronglySorted (fun a b => key_number a <= key_number b) (sort_keys keys).
Proof.
  intros keys. unfold sort_keys.
  assert (G : forall acc,
            Forall numeric_key keys -> Forall numeric_key acc ->
            StronglySorted (fun a b => key_number a <= key_number b) acc ->
            StronglySorted (fun a b => key_number a <= key_number b)
              (fold_left (fun sorted k => insert_key k sorted) keys acc)).
  { induction keys as [|k keys IH]; intros acc Hk Ha Hs; simpl; auto.
    inversion Hk; subst. apply IH; auto.
    - apply (Permutation_Forall (Permutation_sym (insert_key_perm k acc))).
      constructor; auto.
    - apply insert_key_sorted; auto. }
  intros Hk. apply G; auto; constructor.
Qed.



(* ------------------------------------------------------------------ *)
(** * Properties of the list view *)
(* ------------------------------------------------------------------ *)

Import UI.

Lemma renderFileList_map_index : forall mode files,
  renderFileList mode files = map_index (rendered_item mode) 0 files.
Proof. intros mode [|e files]; reflexivity. Qed.

Lemma map_index_nth : forall (A B : Type) (f : A -> nat -> B) l i k,
  nth_error (map_index f i l) k =
  option_map (fun x => f x (i + k)%nat) (nth_error l k).
Proof.
  induction l as [|x l IH]; intros i [|k]; simpl; auto.
  - rewrite Nat.add_0_r. reflexivity.
  - rewrite IH. destruct (nth_error l k); simpl; auto.
    f_equal. f_equal. lia.
Qed.

Lemma map_index_length : forall (A B : Type) (f : A -> nat -> B) l i,
  length (map_index f i l) = length l.
Proof. induction l as [|x l IH]; intros i; simpl; auto. Qed.

Lemma map_index_In : forall (A B : Type) (f : A -> nat -> B) l i y,
  In y (map_index f i l) ->
  exists k x, nth_error l k = Some x /\ y = f x (i + k)%nat.
Proof.
  induction l as [|x l IH]; intros i y H; simpl in H; [destruct H|].
  destruct H as [<-|H].
  - exists 0%nat, x. rewrite Nat.add_0_r. auto.
  - destruct (IH _ _ H) as (k & x' & Hk & ->).
    exists (S k), x'. split; [exact Hk|]. f_equal. lia.
Qed.

Lemma forget_rendered_item : forall mode e e' k,
  file e = file e' ->
  forget_selected (rendered_item mode e k) = forget_selected (rendered_item mode e' k).
Proof.
  intros mode e e' k H. unfold forget_selected, rendered_item. simpl.
  rewrite H. destruct (str_eqb mode (js "single")); reflexivity.
Qed.

Lemma forget_map_index : forall mode u u' i,
  map file u = map file u' ->
  map forget_selected (map_index (rendered_item mode) i u) =
  map forget_selected (map_index (rendered_item mode) i u').
Proof.
  induction u as [|e u IH]; intros [|e' u'] i H; simpl in *; try discriminate; auto.
  inversion H. f_equal; auto. apply forget_rendered_item; auto.
Qed.

Lemma updateFileMonth_files : forall uploaded index month uploaded',
  updateFileMonth uploaded index month = Some uploaded' ->
  map file uploaded' = map file uploaded.
Proof.
  intros uploaded index month uploaded' E.
  pose proof (updateFileMonth_spec uploaded index month) as S.
  rewrite E in S. destruct S as (_ & before & x & after & -> & _ & ->).
  rewrite !map_app. reflexivity.
Qed.

Lemma handle_in_sync : forall st ev, in_sync st -> in_sync (handle st ev).
Proof.
  intros st ev H. destruct ev as [files|dropped|index|index value|value|];
    try reflexivity.
  simpl. destruct (updateFileMonth (uploadedFiles st) index value) as [u'|] eqn:E;
    [|exact H].
  unfold in_sync in *. simpl. rewrite H.
  rewrite !renderFileList_map_index.
  apply forget_map_index. symmetry. eapply updateFileMonth_files; eauto.
Qed.

Lemma in_sync_item : forall st item,
  in_sync st -> In item (fileList st) ->
  exists k e,
    nth_error (uploadedFiles st) k = Some e /\
    forget_selected item = forget_selected (rendered_item (currentMode st) e k).
Proof.
  intros st item H Hin.
  assert (Hf : In (forget_selected item) (map forget_selected (fileList st))).
  { apply in_map; auto. }
  unfold in_sync in H. rewrite H, renderFileList_map_index in Hf.
  apply in_map_iff in Hf. destruct Hf as (y & Hy & Hin').
  apply map_index_In in Hin'. destruct Hin' as (k & e & Hk & ->).
  exists k, e. simpl in Hy. auto.
Qed.



Lemma month_numbers_values :
  map (fun m => template_number m) month_numbers = dropdown_values.
Proof. reflexivity. Qed.

Lemma one_option_selected : forall m,
  1 <= m <= 12 ->
  filter opt_selected
    (map (fun x => {| opt_value := template_number x;
                      opt_selected := js_strict_eq (Num m) x;
                      opt_label := template_number x ++ [tsuki] |}) month_numbers) =
  [ {| opt_value := template_number m; opt_selected := true;
       opt_label := template_number m ++ [tsuki] |} ].
Proof.
  intros m Hm.
  assert (C : m = 1 \/ m = 2 \/ m = 3 \/ m = 4 \/ m = 5 \/ m = 6 \/
              m = 7 \/ m = 8 \/ m = 9 \/ m = 10 \/ m = 11 \/ m = 12) by lia.
  repeat (destruct C as [->|C]; [reflexivity|]). subst. reflexivity.
Qed.



(* ------------------------------------------------------------------ *)
(** * Properties of the form and the download *)
(* ------------------------------------------------------------------ *)

Lemma drop_while_head : forall c (s : jsstring) x t,
  drop_while c s = x :: t -> c x = false.
Proof.
  induction s as [|y s IH]; intros x t H; simpl in H; [discriminate|].
  destruct (c y) eqn:E; [eauto|]. inversion H; subst. exact E.
Qed.

Lemma drop_while_nil : forall c (s : jsstring),
  drop_while c s = [] <-> forallb c s = true.
Proof.
  induction s as [|y s IH]; simpl; [tauto|].
  destruct (c y); simpl; [exact IH|]. split; discriminate.
Qed.

Lemma drop_while_suffix : forall c (s : jsstring),
  exists p, s = p ++ drop_while c s /\ forallb c p = true.
Proof.
  induction s as [|y s (p & Hp & Hc)]; simpl.
  - exists []. auto.
  - destruct (c y) eqn:E.
    + exists (y :: p). simpl. rewrite E, Hc. split; [congruence|reflexivity].
    + exists []. auto.
Qed.

Lemma forallb_rev : forall (c : Z -> bool) s, forallb c (rev s) = forallb c s.
Proof.
  induction s as [|y s IH]; simpl; auto.
  rewrite forallb_app, IH. simpl. rewrite andb_true_r. apply andb_comm.
Qed.

(** [trim] gives the empty string exactly for a string of white space. *)
Lemma trim_nil : forall s, trim s = [] <-> forallb is_space s = true.
Proof.
  intros s. unfold trim. split.
  - intros H. apply (f_equal (@rev Z)) in H. rewrite rev_involutive in H. simpl in H.
    apply drop_while_nil in H. rewrite forallb_rev in H.
    destruct (drop_while is_space s) as [|x t] eqn:E.
    + apply drop_while_nil; auto.
    + apply drop_while_head in E. simpl in H. rewrite E in H. discriminate.
  - intros H. apply drop_while_nil in H. rewrite H. reflexivity.
Qed.

(** What [trim] leaves starts and ends with a character that is not
    white space. *)
Lemma trim_ends : forall s x t,
  trim s = x :: t -> is_space x = false /\ is_space (last (x :: t) x) = false.
Proof.
  intros s x t H. unfold trim in H.
  set (d := drop_while is_space s) in *.
  destruct (drop_while_suffix is_space (rev d)) as (p & Hp & Hc).
  set (r := drop_while is_space (rev d)) in *.
  assert (Hr : r = rev (x :: t)).
  { rewrite <- H, rev_involutive. reflexivity. }
  split.
  - (* the first character of the result is the last of [d] *)
    destruct d as [|y d'] eqn:Ed.
    + unfold r in Hr. simpl in Hr. destruct (rev t); discriminate.
    + assert (Hy : is_space y = false) by (eapply drop_while_head; exact Ed).
      assert (Hx : rev (y :: d') = p ++ rev t ++ [x]).
      { rewrite Hp, Hr. simpl. reflexivity. }
      apply (f_equal (@rev Z)) in Hx. rewrite rev_involutive in Hx.
      rewrite !rev_app_distr in Hx. simpl in Hx. inversion Hx; subst. exact Hy.
  - (* its last character is the first of [r] *)
    assert (Hl : exists t', r = last (x :: t) x :: t').
    { rewrite Hr.
      destruct (@exists_last Z (x :: t) ltac:(discriminate)) as (l' & a & Ha).
      rewrite Ha, last_last, rev_app_distr. simpl. eauto. }
    destruct Hl as (t' & Hl). unfold r in Hl.
    eapply drop_while_head; exact Hl.
Qed.

(** X16: [handleExecute] asks for the client name first and for the
    files second: a name that is empty or white space only gives the
    client-name alert whatever the list; with a name, an empty list gives
    the file alert; the request is sent only with a name and at least one
    file. *)
Theorem X16_execute_needs_name_and_files : forall inputs mode files,
  match handleExecute_start inputs mode files with
  | AlertClientName => forallb is_space (corpName_value inputs) = true
  | AlertNoFiles =>
      forallb is_space (corpName_value inputs) = false /\ files = []
  | Post _ =>
      forallb is_space (corpName_value inputs) = false /\ files <> []
  end.
Proof.
  intros inputs mode files. unfold handleExecute_start.
  destruct (trim (corpName_value inputs)) as [|x t] eqn:E.
  - apply trim_nil; auto.
  - assert (Hn : forallb is_space (corpName_value inputs) = false).
    { destruct (forallb is_space (corpName_value inputs)) eqn:F; auto.
      apply trim_nil in F. congruence. }
    destruct files as [|e files]; split; auto. discriminate.
Qed.

Lemma fold_left_push : forall (A B : Type) (g : A -> B) l acc,
  fold_left (fun fd item => fd ++ [g item]) l acc = acc ++ map g l.
Proof.
  induction l as [|x l IH]; intros acc; simpl.
  - rewrite app_nil_r. reflexivity.
  - rewrite IH, <- app_assoc. reflexivity.
Qed.

Lemma parts_app : forall key a b, parts key (a ++ b) = parts key a ++ parts key b.
Proof. intros. unfold parts. rewrite filter_app, map_app. reflexivity. Qed.

Lemma parts_same_key : forall key k (A : Type) (v : A -> FormValue) l,
  parts key (map (fun x => (k, v x)) l) =
  if str_eqb k key then map v l else [].
Proof.
  intros key k A v l. unfold parts.
  induction l as [|x l IH]; simpl.
  - destruct (str_eqb k key); reflexivity.
  - destruct (str_eqb k key); simpl in *; rewrite IH; reflexivity.
Qed.

Lemma selectedOrder_not_empty : forall radios, selectedOrder radios <> [].
Proof.
  intros radios. unfold selectedOrder.
  destruct (find (fun r => fst r) radios) as [[b [|c v]]|]; discriminate.
Qed.

(** Evaluating the comparison of two literal keys. *)
Ltac literal_keys :=
  repeat match goal with
         | |- context [str_eqb (js ?a) (js ?b)] =>
             let v := eval vm_compute in (str_eqb (js a) (js b)) in
             change (str_eqb (js a) (js b)) with v
         end.

(** X17: in the request that [handleExecute] sends, the [files] parts
    are the files of the list in its order, and there is one
    [month_mappings] part, which pairs the name of each of these files, in
    the same order, with its selected month; the client name goes trimmed;
    [month_order] is sent in multi mode only and is never empty
    ("ascending" when no radio is checked). *)
Theorem X17_request_parts : forall inputs mode files formData,
  handleExecute_start inputs mode files = Post formData ->
  parts (js "files") formData = map (fun e => FilePart (file e)) files /\
  parts (js "month_mappings") formData =
    [Json (map (fun e => (name (file e), selectedMonth e)) files)] /\
  parts (js "corp_name") formData = [Text (trim (corpName_value inputs))] /\
  parts (js "month_order") formData =
    (if str_eqb mode (js "multi")
     then [Text (selectedOrder (monthOrderRadios inputs))] else []) /\
  selectedOrder (monthOrderRadios inputs) <> [].
Proof.
  intros inputs mode files formData H. unfold handleExecute_start in H.
  destruct (trim (corpName_value inputs)) as [|x t] eqn:E; [discriminate|].
  destruct files as [|e files'] eqn:Ef; [discriminate|].
  rewrite <- Ef in *. clear Ef e files'.
  rewrite (fold_left_push _ _ (fun item => (js "files", FilePart (file item)))) in H.
  injection H as <-.
  rewrite !parts_app.
  rewrite !(parts_same_key _ (js "files") _ (fun item => FilePart (file item))).
  destruct (str_eqb mode (js "multi")); rewrite ?parts_app;
    unfold parts; cbn [filter map fst snd app]; literal_keys;
    cbn [filter map fst snd app]; rewrite ?app_nil_r;
    (split; [reflexivity|]); (split; [reflexivity|]); (split; [reflexivity|]);
    (split; [reflexivity|]); apply selectedOrder_not_empty.
Qed.

Lemma X17_request_parts_witness :
  handleExecute_start
    {| corpName_value := js " 光 "; address_value := []; corpNumber_value := [];
       startMonth_value := js "4"; monthOrderRadios := [(false, js "descending")] |}
    (js "multi")
    [ {| file := {| name := js "a.pdf" |}; detectedMonth := None;
         selectedMonth := Num 1 |} ]
  = Post [ (js "corp_name", Text (js "光")); (js "address", Text []);
           (js "corp_number", Text []); (js "mode", Text (js "multi"));
           (js "start_month", Text (js "4"));
           (js "month_order", Text (js "ascending"));
           (js "month_mappings", Json [(js "a.pdf", Num 1)]);
           (js "files", FilePart {| name := js "a.pdf" |}) ] /\
  parts (js "files")
        [ (js "corp_name", Text (js "光")); (js "address", Text []);
          (js "corp_number", Text []); (js "mode", Text (js "multi"));
          (js "start_month", Text (js "4"));
          (js "month_order", Text (js "ascending"));
          (js "month_mappings", Json [(js "a.pdf", Num 1)]);
          (js "files", FilePart {| name := js "a.pdf" |}) ]
  = [FilePart {| name := js "a.pdf" |}].
Proof.
  assert (E : handleExecute_start
    {| corpName_value := js " 光 "; address_value := []; corpNumber_value := [];
       startMonth_value := js "4"; monthOrderRadios := [(false, js "descending")] |}
    (js "multi")
    [ {| file := {| name := js "a.pdf" |}; detectedMonth := None;
         selectedMonth := Num 1 |} ]
  = Post [ (js "corp_name", Text (js "光")); (js "address", Text []);
           (js "corp_number", Text []); (js "mode", Text (js "multi"));
           (js "start_month", Text (js "4"));
           (js "month_order", Text (js "ascending"));
           (js "month_mappings", Json [(js "a.pdf", Num 1)]);
           (js "files", FilePart {| name := js "a.pdf" |}) ]) by reflexivity.
  split; [exact E|].
  exact (proj1 (X17_request_parts _ _ _ _ E)).
Defined.

(** X18: the name [handleDownload] gives the download is the client name
    it sends as [corp_name], followed by ".xlsx"; that name is never
    empty and has no white space at either end: it is the trimmed input,
    or "output" when the input is empty or white space only. *)
Theorem X18_download_name : forall inputs,
  exists stem x t,
    fst (handleDownload_request inputs) = stem ++ js ".xlsx" /\
    In (js "corp_name", stem) (snd (handleDownload_request inputs)) /\
    stem = x :: t /\ is_space x = false /\ is_space (last stem x) = false /\
    stem = (if forallb is_space (corpName_value inputs)
            then js "output" else trim (corpName_value inputs)).
Proof.
  intros inputs. unfold handleDownload_request.
  destruct (trim (corpName_value inputs)) as [|x t] eqn:E.
  - apply trim_nil in E. rewrite E.
    exists (js "output"), 111, (js "utput").
    repeat split; try reflexivity. left. reflexivity.
  - destruct (trim_ends _ _ _ E) as [H1 H2].
    assert (Hn : forallb is_space (corpName_value inputs) = false).
    { destruct (forallb is_space (corpName_value inputs)) eqn:F; auto.
      apply trim_nil in F. congruence. }
    rewrite Hn. exists (x :: t), x, t.
    split; [reflexivity|]. split; [left; reflexivity|].
    split; [reflexivity|]. split; [exact H1|]. split; [exact H2|reflexivity].
Qed.

Lemma tenths_bounds : forall bytes unit,
  0 <= bytes -> 0 < unit -> unit mod 2 = 0 ->
  2 * Z.abs (unit * tenths bytes unit - 10 * bytes) <= unit.
Proof.
  intros bytes unit Hb Hu He. unfold tenths.
  pose proof (Z.div_mod unit 2 ltac:(lia)) as Hh. rewrite He in Hh.
  pose proof (Z.div_mod (10 * bytes + unit / 2) unit ltac:(lia)) as Hd.
  pose proof (Z.mod_pos_bound (10 * bytes + unit / 2) unit Hu) as Hm.
  lia.
Qed.

(** X19: [formatFileSize] shows bytes below 1024, KB below 1024 * 1024
    and MB from there on. The number of tenths it shows in KB or MB is
    within 0.05 of the exact quotient; in KB it lies between 1.0 and
    1024.0, the latter being reached (by 1048525 bytes and more), and in
    MB it is at least 1.0. *)
Theorem X19_file_size_text : forall bytes,
  0 <= bytes < 2 ^ 53 ->
  (bytes < 1024 -> formatFileSize bytes = number_text bytes ++ js " B") /\
  (1024 <= bytes < 1024 * 1024 ->
   formatFileSize bytes = toFixed1 bytes 1024 ++ js " KB" /\
   10 <= tenths bytes 1024 <= 10240 /\
   (tenths bytes 1024 = 10240 <-> 1048525 <= bytes) /\
   2 * Z.abs (1024 * tenths bytes 1024 - 10 * bytes) <= 1024) /\
  (1024 * 1024 <= bytes ->
   formatFileSize bytes = toFixed1 bytes (1024 * 1024) ++ js " MB" /\
   10 <= tenths bytes (1024 * 1024) /\
   2 * Z.abs (1024 * 1024 * tenths bytes (1024 * 1024) - 10 * bytes) <= 1024 * 1024).
Proof.
  intros bytes [Hb _]. split; [|split].
  - intros H. unfold formatFileSize.
    destruct (Z.ltb_spec bytes 1024); [reflexivity|lia].
  - intros [H1 H2]. split; [|split; [|split]].
    + unfold formatFileSize.
      destruct (Z.ltb_spec bytes 1024); [lia|].
      destruct (Z.ltb_spec bytes (1024 * 1024)); [reflexivity|lia].
    + unfold tenths. change (1024 / 2) with 512.
      pose proof (Z.div_mod (10 * bytes + 512) 1024 ltac:(lia)) as Hd.
      pose proof (Z.mod_pos_bound (10 * bytes + 512) 1024 ltac:(lia)) as Hm.
      lia.
    + unfold tenths. change (1024 / 2) with 512.
      pose proof (Z.div_mod (10 * bytes + 512) 1024 ltac:(lia)) as Hd.
      pose proof (Z.mod_pos_bound (10 * bytes + 512) 1024 ltac:(lia)) as Hm.
      lia.
    + apply tenths_bounds; auto; lia.
  - intros H. split; [|split].
    + unfold formatFileSize.
      destruct (Z.ltb_spec bytes 1024); [lia|].
      destruct (Z.ltb_spec bytes (1024 * 1024)); [lia|reflexivity].
    + unfold tenths. change (1024 * 1024 / 2) with 524288.
      pose proof (Z.div_mod (10 * bytes + 524288) (1024 * 1024) ltac:(lia)) as Hd.
      pose proof (Z.mod_pos_bound (10 * bytes + 524288) (1024 * 1024) ltac:(lia)) as Hm.
      lia.
    + apply tenths_bounds; auto; lia.
Qed.

Lemma X19_file_size_text_witness :
  0 <= 1048575 < 2 ^ 53 /\ 1024 <= 1048575 < 1024 * 1024 /\
  formatFileSize 1048575 = js "1024.0 KB" /\
  formatFileSize 1536 = js "1.5 KB" /\
  tenths 1048575 1024 = 10240.
Proof.
  assert (H0 : 0 <= 1048575 < 2 ^ 53) by (split; [lia|reflexivity]).
  assert (H1 : 1024 <= 1048575 < 1024 * 1024) by lia.
  split; [exact H0|]. split; [exact H1|].
  split; [reflexivity|]. split; [reflexivity|].
  apply (proj1 (proj2 (proj2 (proj1 (proj2 (X19_file_size_text 1048575 H0)) H1)))).
  lia.
Defined.

Lemma X2_earliest_named_month_witness :
  contains_month_name (js "December_summary.pdf") 12 /\
  heuristic3 (js "December_summary.pdf") = Some (Num 3) /\
  3 <= 12.
Proof.
  assert (C : contains_month_name (js "December_summary.pdf") 12).
  { exists (js "december"). split.
    - unfold monthNames. simpl. tauto.
    - exists [], (js "_summary.pdf"). reflexivity. }
  assert (E : heuristic3 (js "December_summary.pdf") = Some (Num 3)) by reflexivity.
  split; [exact C|]. split; [exact E|].
  pose proof (X2_earliest_named_month (js "December_summary.pdf")) as H.
  rewrite E in H. exact (proj2 H 12 C).
Defined.

Lemma X18_download_name_witness :
  fst (handleDownload_request
         {| corpName_value := js "  "; address_value := []; corpNumber_value := [];
            startMonth_value := []; monthOrderRadios := [] |}) = js "output.xlsx" /\
  exists stem, stem <> [] /\
    In (js "corp_name", stem)
       (snd (handleDownload_request
               {| corpName_value := js "  "; address_value := []; corpNumber_value := [];
                  startMonth_value := []; monthOrderRadios := [] |})).
Proof.
  split; [reflexivity|].
  destruct (X18_download_name
              {| corpName_value := js "  "; address_value := []; corpNumber_value := [];
                 startMonth_value := []; monthOrderRadios := [] |})
    as (stem & x & t & _ & Hin & Hs & _).
  exists stem. split; [rewrite Hs; discriminate|exact Hin].
Defined.

Lemma digits_value_snoc : forall ds d,
  digits_value 10 (ds ++ [d]) = 10 * digits_value 10 ds + digit_value d.
Proof.
  intros ds d. unfold digits_value. rewrite fold_left_app. reflexivity.
Qed.

(** The digits written for a natural number read back as the number. *)
Lemma decimal_digits_value : forall fuel n,
  (0 < fuel)%nat -> 0 <= n < 10 ^ Z.of_nat fuel ->
  decimal_digits fuel n <> [] /\
  forallb is_ascii_digit (decimal_digits fuel n) = true /\
  digits_value 10 (decimal_digits fuel n) = n.
Proof.
  induction fuel as [|fuel IH]; intros n Hf Hn; [lia|].
  cbn [decimal_digits]. destruct (Z.ltb_spec n 10).
  - split; [discriminate|]. split.
    + cbn [forallb]. rewrite andb_true_r. class_facts.
    + unfold digits_value. cbn [fold_left]. unfold digit_value.
      assert (is_ascii_digit (48 + n) = true) as -> by class_facts. lia.
  - rewrite Nat2Z.inj_succ, Z.pow_succ_r in Hn by lia.
    assert (Hq : 1 <= n / 10 < 10 ^ Z.of_nat fuel).
    { split.
      - apply Z.div_le_lower_bound; lia.
      - apply Z.div_lt_upper_bound; lia. }
    assert (Hfuel : (0 < fuel)%nat).
    { destruct fuel; [simpl in Hq; lia|lia]. }
    destruct (IH (n / 10) Hfuel ltac:(lia)) as (Hne & Hd & Hv).
    assert (Hm : 0 <= n mod 10 < 10) by (apply Z.mod_pos_bound; lia).
    split; [destruct (decimal_digits fuel (n / 10)); discriminate|]. split.
    + rewrite forallb_app, Hd. cbn [forallb]. rewrite andb_true_r. class_facts.
    + rewrite digits_value_snoc, Hv. unfold digit_value.
      assert (is_ascii_digit (48 + n mod 10) = true) as -> by class_facts.
      pose proof (Z.div_mod n 10 ltac:(lia)). lia.
Qed.

Lemma parseInt_number_text : forall n,
  0 <= n -> parseInt (number_text n) = Num n.
Proof.
  intros n Hn. unfold number_text.
  assert (Hb : 0 <= n < 10 ^ Z.of_nat (S (Z.to_nat (Z.log2 n)))).
  { split; auto. rewrite Nat2Z.inj_succ, Z2Nat.id by apply Z.log2_nonneg.
    destruct (Z.eq_dec n 0) as [->|H0]; [reflexivity|].
    apply Z.lt_le_trans with (2 ^ Z.succ (Z.log2 n)).
    - apply Z.log2_spec. lia.
    - apply Z.pow_le_mono_l. pose proof (Z.log2_nonneg n). lia. }
  destruct (decimal_digits_value (S (Z.to_nat (Z.log2 n))) n (Nat.lt_0_succ _) Hb)
    as (Hne & Hd & Hv).
  rewrite parseInt_ascii_digits; auto. rewrite Hv. reflexivity.
Qed.



Lemma find_first : forall (A : Type) (p : A -> bool) before x after,
  (forall b, In b before -> p b = false) -> p x = true ->
  find p (before ++ x :: after) = Some x.
Proof.
  induction before as [|b before IH]; intros x after Hb Hx; simpl.
  - rewrite Hx. reflexivity.
  - rewrite (Hb b (or_introl eq_refl)). apply IH; auto.
    intros b' Hin. apply Hb. right. exact Hin.
Qed.

(** X21: the month shown for a result is that of the first entry of the
    list that bears the result's filename: the entries after it, also
    those of the same name, play no part in the rows of the item. *)
Theorem X21_first_entry_of_a_name : forall before e after item,
  (forall b, In b before -> name (file b) <> filename item) ->
  name (file e) = filename item ->
  rows_of (before ++ e :: after) item = rows_of [e] item.
Proof.
  intros before e after item Hb He. unfold rows_of, render_item.
  rewrite (find_first _ (fun f => str_eqb (name (file f)) (filename item)) before e after).
  - simpl. rewrite (proj2 (str_eqb_eq _ _) He). reflexivity.
  - intros b Hin. destruct (str_eqb (name (file b)) (filename item)) eqn:E; auto.
    apply str_eqb_eq in E. exfalso. exact (Hb b Hin E).
  - apply str_eqb_eq. exact He.
Qed.

Lemma X21_first_entry_of_a_name_witness :
  (forall b, In b [ {| file := {| name := js "x.pdf" |}; detectedMonth := None;
                       selectedMonth := Num 1 |} ] ->
             name (file b) <> js "a.pdf") /\
  rows_of [ {| file := {| name := js "x.pdf" |}; detectedMonth := None;
               selectedMonth := Num 1 |};
            {| file := {| name := js "a.pdf" |}; detectedMonth := None;
               selectedMonth := Num 3 |};
            {| file := {| name := js "a.pdf" |}; detectedMonth := None;
               selectedMonth := Num 9 |} ]
          {| filename := js "a.pdf"; status := js "完了"; fields := None;
             ocr_text := None; ocr_confidence := None |}
  = [Row (js "3月") (js "エラー") BadgeError None].
Proof.
  assert (H : forall b, In b [ {| file := {| name := js "x.pdf" |};
                                  detectedMonth := None; selectedMonth := Num 1 |} ] ->
                        name (file b) <> js "a.pdf").
  { intros b [<-|[]]. simpl. discriminate. }
  split; [exact H|].
  exact (eq_trans
           (X21_first_entry_of_a_name
              [ {| file := {| name := js "x.pdf" |}; detectedMonth := None;
                   selectedMonth := Num 1 |} ]
              {| file := {| name := js "a.pdf" |}; detectedMonth := None;
                 selectedMonth := Num 3 |}
              [ {| file := {| name := js "a.pdf" |}; detectedMonth := None;
                   selectedMonth := Num 9 |} ]
              {| filename := js "a.pdf"; status := js "完了"; fields := None;
                 ocr_text := None; ocr_confidence := None |} H eq_refl)
           eq_refl).
Defined.
